(** * tc_aws.aws.storage: key derivation, expiry policy and sidecar naming

    A shallow embedding of [src/tc_aws/aws/storage.py] (class [AwsStorage])
    and of the pieces of the Python standard library it calls
    ([str.lstrip], [str.endswith], [posixpath.join], [posixpath.splitext],
    [hashlib.sha1], [datetime] subtraction).

    Representation choices.
    - A Python [str] is the [string] of its UTF-8 bytes.  The only
      characters the module inspects are [/] and [.], both ASCII, and UTF-8
      never uses an ASCII byte inside a multi-byte sequence, so stripping,
      suffix tests, joining and extension splitting act on the byte string
      exactly as they act on the text; [encode('utf-8')] is then the
      conversion to a list of bytes.
    - An aware [datetime] is a number of microseconds on the UTC time line
      (a [Z]); a [timedelta] is the normalised triple Python stores.
    - The response mapping of the object store is a record of the entries
      the module reads, each optional.
    - [async] methods are programs over the calls awaited on the bucket. *)

From Stdlib Require Import ZArith List Bool Ascii String Strings.Byte Lia.
From stdpp Require Import base option gmap strings.

Local Open Scope string_scope.
Local Open Scope Z_scope.

(** [simpl] unfolds [+:+] on a constructor, as it does for lists. *)
#[local] Arguments String.append !s1 s2 : simpl nomatch.

(** ** Python [str] methods *)

Module PyStr.

(** [s.lstrip(c)] for a one-character argument. *)
Fixpoint lstrip (c : ascii) (s : string) : string :=
  match s with
  | EmptyString => EmptyString
  | String a s' => if Ascii.eqb a c then lstrip c s' else s
  end.

(** [s.startswith(p)]. *)
Definition startswith (s p : string) : bool := String.prefix p s.

(** [s.endswith(suf)]: some tail of [s] is [suf]. *)
Fixpoint endswith (s suf : string) : bool :=
  String.eqb s suf ||
  match s with
  | EmptyString => false
  | String _ s' => endswith s' suf
  end.

(** [sep.join(l)]. *)
Fixpoint str_join (sep : string) (l : list string) : string :=
  match l with
  | [] => ""
  | [x] => x
  | x :: l' => x +:+ sep +:+ str_join sep l'
  end.

(** [s.rfind(c)] for a one-character argument: the highest index holding
    [c], or [-1]. *)
Fixpoint rfind_aux (c : ascii) (s : string) (i acc : Z) : Z :=
  match s with
  | EmptyString => acc
  | String a s' => rfind_aux c s' (i + 1) (if Ascii.eqb a c then i else acc)
  end.

Definition rfind (s : string) (c : ascii) : Z := rfind_aux c s 0 (-1).

(** Slices [s[:i]], [s[i:]] and [s[i:i+1]] for [0 <= i]. *)
Definition slice_to (s : string) (i : Z) : string :=
  String.substring 0 (Z.to_nat i) s.

Definition slice_from (s : string) (i : Z) : string :=
  String.substring (Z.to_nat i) (String.length s - Z.to_nat i) s.

Definition slice1 (s : string) (i : Z) : string :=
  String.substring (Z.to_nat i) 1 s.

(** Truth value of a [str]. *)
Definition truthy (s : string) : bool := negb (String.eqb s "").

(** Membership of a character. *)
Fixpoint contains (c : ascii) (s : string) : bool :=
  match s with
  | EmptyString => false
  | String a s' => Ascii.eqb a c || contains c s'
  end.

(** Occurrence of two adjacent [c]. *)
Fixpoint doubled (c : ascii) (s : string) : bool :=
  match s with
  | String a (String b _ as s') => (Ascii.eqb a c && Ascii.eqb b c) || doubled c s'
  | _ => false
  end.

(** Every character is [c]. *)
Fixpoint all_are (c : ascii) (s : string) : bool :=
  match s with
  | EmptyString => true
  | String a s' => Ascii.eqb a c && all_are c s'
  end.

(** [s.split(c)[0]]: the text before the first [c]. *)
Fixpoint first_field (c : ascii) (s : string) : string :=
  match s with
  | EmptyString => EmptyString
  | String a s' => if Ascii.eqb a c then EmptyString else String a (first_field c s')
  end.

End PyStr.

(** ** [posixpath] *)

Module PosixPath.
Import PyStr.

Definition sep : string := "/".
Definition extsep : string := ".".

(** One round of the loop of [posixpath.join]: an absolute component
    replaces what was joined so far, otherwise it is appended, with a
    separator unless the path is empty or already ends with one. *)
Definition join_step (path b : string) : string :=
  if startswith b sep then b
  else if negb (truthy path) || endswith path sep then path +:+ b
  else path +:+ sep +:+ b.

(** [join(a, *p)]. *)
Definition join (a : string) (p : list string) : string :=
  fold_left join_step p a.

(** The [while filenameIndex < dotIndex] loop of [_splitext]: [true] when a
    character other than the extension separator is met before [dotIndex].
    [n] is [dotIndex - filenameIndex], the number of rounds left. *)
Fixpoint has_name_before_dot (p : string) (filenameIndex : Z) (n : nat) : bool :=
  match n with
  | O => false
  | S n' =>
      if negb (String.eqb (slice1 p filenameIndex) extsep) then true
      else has_name_before_dot p (filenameIndex + 1) n'
  end.

(** [splitext(p)] ([genericpath._splitext] with [altsep = None]). *)
Definition splitext (p : string) : string * string :=
  let sepIndex := rfind p "/" in
  let dotIndex := rfind p "." in
  if (dotIndex >? sepIndex)
     && has_name_before_dot p (sepIndex + 1) (Z.to_nat (dotIndex - (sepIndex + 1)))
  then (slice_to p dotIndex, slice_from p dotIndex)
  else (p, "").

End PosixPath.

(** ** [hashlib.sha1] (FIPS 180-4) *)

Module SHA1.

Definition w32 (x : Z) : Z := x mod 2 ^ 32.

Definition rotl (n x : Z) : Z :=
  w32 (Z.lor (Z.shiftl x n) (Z.shiftr x (32 - n))).

Definition add32 (x y : Z) : Z := w32 (x + y).

(** Big-endian bytes of the low [8 * n] bits of [x]. *)
Fixpoint be_bytes (n : nat) (x : Z) : list Z :=
  match n with
  | O => []
  | S n' => (Z.shiftr x (8 * Z.of_nat n')) mod 256 :: be_bytes n' x
  end.

(** Message padding: one [0x80] byte, zero bytes up to 56 modulo 64, then
    the bit length on 64 bits. *)
Definition pad (msg : list Z) : list Z :=
  let len := Z.of_nat (List.length msg) in
  msg ++ 128 :: List.repeat 0 (Z.to_nat ((55 - len) mod 64)) ++ be_bytes 8 (8 * len).

Fixpoint be_word (bs : list Z) (acc : Z) : Z :=
  match bs with
  | [] => acc
  | b :: bs' => be_word bs' (acc * 256 + b)
  end.

(** The 32-bit big-endian words of a byte list. *)
Fixpoint words (n : nat) (bs : list Z) : list Z :=
  match n with
  | O => []
  | S n' => be_word (firstn 4 bs) 0 :: words n' (skipn 4 bs)
  end.

(** The message schedule, kept newest-first: [extend k w] adds [k] words. *)
Fixpoint extend (k : nat) (w : list Z) : list Z :=
  match k with
  | O => w
  | S k' =>
      let x := Z.lxor (Z.lxor (nth 2 w 0) (nth 7 w 0))
                      (Z.lxor (nth 13 w 0) (nth 15 w 0)) in
      extend k' (rotl 1 x :: w)
  end.

Definition schedule (block : list Z) : list Z :=
  rev (extend 64 (rev (words 16 block))).

Record state := mk_state { ha : Z; hb : Z; hc : Z; hd : Z; he : Z }.

Definition init : state :=
  mk_state 0x67452301 0xEFCDAB89 0x98BADCFE 0x10325476 0xC3D2E1F0.

Definition f_k (t b c d : Z) : Z * Z :=
  if t <? 20 then (Z.lor (Z.land b c) (Z.land (Z.lxor b 0xFFFFFFFF) d), 0x5A827999)
  else if t <? 40 then (Z.lxor (Z.lxor b c) d, 0x6ED9EBA1)
  else if t <? 60 then (Z.lor (Z.lor (Z.land b c) (Z.land b d)) (Z.land c d), 0x8F1BBCDC)
  else (Z.lxor (Z.lxor b c) d, 0xCA62C1D6).

Fixpoint rounds (ws : list Z) (t : Z) (s : state) : state :=
  match ws with
  | [] => s
  | w :: ws' =>
      let '(f, k) := f_k t (hb s) (hc s) (hd s) in
      let temp := add32 (add32 (add32 (add32 (rotl 5 (ha s)) f) (he s)) k) w in
      rounds ws' (t + 1) (mk_state temp (ha s) (rotl 30 (hb s)) (hc s) (hd s))
  end.

Definition compress (h : state) (block : list Z) : state :=
  let s := rounds (schedule block) 0 h in
  mk_state (add32 (ha h) (ha s)) (add32 (hb h) (hb s)) (add32 (hc h) (hc s))
           (add32 (hd h) (hd s)) (add32 (he h) (he s)).

Fixpoint blocks (n : nat) (bs : list Z) (h : state) : state :=
  match n with
  | O => h
  | S n' => blocks n' (skipn 64 bs) (compress h (firstn 64 bs))
  end.

Definition digest_state (msg : list Z) : state :=
  let p := pad msg in
  blocks (List.length p / 64) p init.

(** Lower-case hexadecimal digit of [n mod 16]. *)
Definition hexdigit (n : Z) : ascii :=
  match n mod 16 with
  | 0 => "0" | 1 => "1" | 2 => "2" | 3 => "3" | 4 => "4" | 5 => "5"
  | 6 => "6" | 7 => "7" | 8 => "8" | 9 => "9" | 10 => "a" | 11 => "b"
  | 12 => "c" | 13 => "d" | 14 => "e" | _ => "f"
  end%char.

Fixpoint hex (n : nat) (x : Z) : string :=
  match n with
  | O => ""
  | S n' => String (hexdigit (Z.shiftr x (4 * Z.of_nat n'))) (hex n' x)
  end.

Definition hex_state (s : state) : string :=
  hex 8 (ha s) +:+ hex 8 (hb s) +:+ hex 8 (hc s) +:+ hex 8 (hd s) +:+ hex 8 (he s).

(** [sha1(data).hexdigest()]. *)
Definition hexdigest (data : list byte) : string :=
  hex_state (digest_state (map (fun b => Z.of_N (Byte.to_N b)) data)).

End SHA1.

(** [s.encode('utf-8')] on the byte representation of a [str]. *)
Definition encode_utf8 (s : string) : list byte := list_byte_of_string s.

(** ** [datetime] and [timedelta] *)

Module DateTime.

(** An aware [datetime]: microseconds on the UTC time line. *)
Definition datetime := Z.

(** A [timedelta] as Python stores it: [0 <= seconds < 86400] and
    [0 <= microseconds < 1000000]; only [days] carries the sign. *)
Record timedelta := mk_timedelta { days : Z; seconds : Z; microseconds : Z }.

Definition us_per_second : Z := 1000000.
Definition seconds_per_day : Z := 86400.
Definition us_per_day : Z := seconds_per_day * us_per_second.

(** [timedelta(microseconds=us)], normalised. *)
Definition of_microseconds (us : Z) : timedelta :=
  mk_timedelta (us / us_per_day)
               ((us mod us_per_day) / us_per_second)
               (us mod us_per_second).

(** [a - b] on two aware datetimes. *)
Definition sub (a b : datetime) : timedelta := of_microseconds (a - b).

(** The duration in microseconds, [td / timedelta(microseconds=1)]. *)
Definition to_microseconds (td : timedelta) : Z :=
  (days td * seconds_per_day + seconds td) * us_per_second + microseconds td.

(** [int(td.total_seconds())] for a duration that is not negative: the
    elapsed time truncated to whole seconds. *)
Definition whole_seconds (td : timedelta) : Z :=
  to_microseconds td / us_per_second.

End DateTime.

(** ** The data the storage reads *)

(** The error entry of a response ([response['Error']]), a mapping from
    names such as [Code] and [Message] to text or to [None] (the text of an
    empty element of the error document). *)
Abbreviation error_mapping := (gmap string (option string)).

(** What the lookup of an attribute that an object does not have raises. *)
Inductive attribute_error :=
| AttributeError (attribute : string).

(** The [Body] entry of a response: a stream, whose [read()] gives its
    content, or a plain [str], which has no [read]. *)
Inductive body_value :=
| BodyStream (content : string)
| BodyText (text : string).

(** [body.read()]. *)
Definition read (body : body_value) : attribute_error + string :=
  match body with
  | BodyStream content => inr content
  | BodyText _ => inl (AttributeError "read")
  end.

(** The mapping returned by the bucket's [get]: the entries the module
    reads, each of which may be missing, and the number of further entries
    (response metadata, content type, ...), which only matter for the truth
    value of the mapping. *)
Record Response := mk_Response {
  Body : option body_value;
  LastModified : option DateTime.datetime;
  Error : option error_mapping;
  other_entries : nat
}.

(** [1] for an entry that is present. *)
Definition entry {A : Type} (o : option A) : nat :=
  match o with
  | Some _ => 1
  | None => 0
  end.

(** [len(response)]. *)
Definition response_len (r : Response) : nat :=
  (entry (Body r) + entry (LastModified r) + entry (Error r) + other_entries r)%nat.

(** Truth value of what [get] returned: [None] and the empty mapping are
    false. *)
Definition response_truthy (key : option Response) : bool :=
  match key with
  | None => false
  | Some r => negb (Nat.eqb (response_len r) 0)
  end.

(** [context.config], with the entries named [{config_prefix}_...] already
    resolved for the prefix of the storage. *)
Record Config := mk_Config {
  AUTO_WEBP : bool;
  BUCKET : string;
  ROOT_PATH : option string;
  TC_AWS_RANDOMIZE_KEYS : bool;
  TC_AWS_ROOT_IMAGE_NAME : string;
  TC_AWS_STORE_METADATA : bool;
  TC_AWS_STORAGE_RRS : bool;
  TC_AWS_STORAGE_SSE : bool;
  STORES_CRYPTO_KEY_FOR_EACH_IMAGE : bool
}.

Record Request := mk_Request { url : string; accepts_webp : bool }.

Record Server := mk_Server { security_key : option string }.

(** [request] is [None] when the context has no [request] attribute. *)
Record Context := mk_Context {
  config : Config;
  request : option Request;
  server : Server;
  headers : gmap string string
}.

(** The [config_prefix] object.  [set] compares it with the literal
    ['TC_AWS_RESULT_STORAGE'] by identity ([is]): what counts is whether
    the prefix is the very object of that literal, as it is when the caller
    wrote the same literal, which the interpreter interns, and not whether
    its text is equal.  [OtherStr] is any other [str] object, whatever its
    text. *)
Inductive prefix_object :=
| ResultStorageLiteral
| OtherStr (text : string).

Definition prefix_text (p : prefix_object) : string :=
  match p with
  | ResultStorageLiteral => "TC_AWS_RESULT_STORAGE"
  | OtherStr text => text
  end.

(** [p is 'TC_AWS_RESULT_STORAGE']. *)
Definition is_result_storage_literal (p : prefix_object) : bool :=
  match p with
  | ResultStorageLiteral => true
  | OtherStr _ => false
  end.

(** The storage object.  [storage_expiration_seconds] is an attribute the
    concrete storages set; [AwsStorage] only reads it. *)
Record AwsStorage := mk_AwsStorage {
  context : Context;
  config_prefix : prefix_object;
  storage_expiration_seconds : option Z
}.

(** Truth value of an optional [str] ([None] and [''] are false). *)
Definition opt_truthy (o : option string) : bool :=
  match o with
  | None => false
  | Some s => PyStr.truthy s
  end.

(** ** Synchronous methods of [AwsStorage] *)

Definition is_auto_webp (self : AwsStorage) : bool :=
  AUTO_WEBP (config (context self))
  && match request (context self) with
     | None => false
     | Some r => accepts_webp r
     end.

Definition _should_randomize_key (self : AwsStorage) : bool :=
  TC_AWS_RANDOMIZE_KEYS (config (context self)).

Definition _generate_digest (segments : list string) : string :=
  SHA1.hexdigest (encode_utf8 (PyStr.str_join "." segments)).

(** [self._get_config('ROOT_PATH')] and
    [self.context.config.TC_AWS_ROOT_IMAGE_NAME]. *)
Definition root_path (self : AwsStorage) : option string :=
  ROOT_PATH (config (context self)).

Definition root_image_name (self : AwsStorage) : string :=
  TC_AWS_ROOT_IMAGE_NAME (config (context self)).

(** The segment list of [_normalize_path] before the digest is inserted. *)
Definition plain_segments (self : AwsStorage) (path : string) : list string :=
  let path := PyStr.lstrip "/" path in
  let path_segments := [path] in
  let root_path := root_path self in
  let path_segments :=
    match root_path with
    | Some r => if PyStr.truthy r then r :: path_segments else path_segments
    | None => path_segments
    end in
  if is_auto_webp self then path_segments ++ ["webp"] else path_segments.

(** The segment list when the join is reached. *)
Definition path_segments (self : AwsStorage) (path : string) : list string :=
  let path_segments := plain_segments self path in
  if _should_randomize_key self
  then _generate_digest path_segments :: path_segments
  else path_segments.

(** [join(path_segments[0], *path_segments[1:]).lstrip('/')] if there is
    more than one segment, else [path_segments[0]]. *)
Definition joined (segments : list string) : string :=
  match segments with
  | [] => ""
  | [s] => s
  | s :: rest => PyStr.lstrip "/" (PosixPath.join s rest)
  end.

Definition _normalize_path (self : AwsStorage) (path : string) : string :=
  let normalized_path := joined (path_segments self path) in
  if PyStr.endswith normalized_path "/"
  then normalized_path +:+ root_image_name self
  else normalized_path.

(** What [_get_error] returns when it does not return [None]: the message,
    or the whole error mapping when it has no message. *)
Inductive error_value :=
| ErrMessage (m : string)
| ErrMapping (e : error_mapping).

(** [response['Error']['Message']] is returned as it is: a message that is
    [None] makes the result [None]. *)
Definition _get_error (response : Response) : option error_value :=
  match Error response with
  | Some e =>
      match e !! "Message" with
      | Some (Some m) => Some (ErrMessage m)
      | Some None => None
      | None => Some (ErrMapping e)
      end
  | None => None
  end.

(** Truth value of the result of [_get_error]. *)
Definition error_truthy (v : option error_value) : bool :=
  match v with
  | None => false
  | Some (ErrMessage m) => PyStr.truthy m
  | Some (ErrMapping e) => negb (Nat.eqb (size e) 0)
  end.

(** [is_expired(key)]; [now] is the clock reading [datetime.now(tzutc())].
    The guard [key and self._get_error(key) is None and 'LastModified' in
    key] is evaluated left to right; its last conjunct is the match on
    [LastModified]. *)
Definition is_expired (self : AwsStorage) (now : DateTime.datetime)
    (key : option Response) : bool :=
  match key with
  | Some k =>
      if response_truthy key && bool_decide (_get_error k = None) then
        match LastModified k with
        | Some last_modified =>
            let expire_in_seconds := storage_expiration_seconds self in
            match expire_in_seconds with
            | None => false
            | Some e =>
                if e =? 0 then false
                else
                  let timediff := DateTime.sub now last_modified in
                  DateTime.seconds timediff >? e
            end
        | None => true
        end
      else true
  | None => true
  end.

(** [splitext(file_abspath)[0]] followed by the sidecar suffix. *)
Definition crypto_path (file_abspath : string) : string :=
  fst (PosixPath.splitext file_abspath) +:+ ".txt".

Definition detectors_path (file_abspath : string) : string :=
  fst (PosixPath.splitext file_abspath) +:+ ".detectors.txt".

(** ** Asynchronous methods

    An [async] method is a program that returns, raises, or awaits one call
    on the bucket and goes on with its result. *)

Inductive exn :=
| RuntimeError (msg : string)
| AttributeErr (e : attribute_error).

(** Keyword arguments of [Bucket.put]. *)
Record put_attrs := mk_put_attrs {
  metadata : gmap string string;
  reduced_redundancy : bool;
  encrypt_key : bool
}.

Inductive aio (A : Type) : Type :=
| Return (a : A)
| Raise (e : exn)
| AwaitGet (key : string) (k : option Response -> aio A)
| AwaitPut (key data : string) (attrs : put_attrs) (k : string -> aio A)
| AwaitDelete (key : string) (k : unit -> aio A).

Arguments Return {A} a.
Arguments Raise {A} e.
Arguments AwaitGet {A} key k.
Arguments AwaitPut {A} key data attrs k.
Arguments AwaitDelete {A} key k.

Fixpoint aio_bind {A B : Type} (f : A -> aio B) (p : aio A) : aio B :=
  match p with
  | Return a => f a
  | Raise e => Raise e
  | AwaitGet key k => AwaitGet key (fun r => aio_bind f (k r))
  | AwaitPut key data attrs k => AwaitPut key data attrs (fun r => aio_bind f (k r))
  | AwaitDelete key k => AwaitDelete key (fun r => aio_bind f (k r))
  end.

#[global] Instance aio_mret : MRet aio := fun A a => Return a.
#[global] Instance aio_mbind : MBind aio := fun A B f p => aio_bind f p.

(** [await self.storage.get(key)], [put] and [delete]. *)
Definition storage_get (key : string) : aio (option Response) :=
  AwaitGet key Return.

Definition storage_put (key data : string) (attrs : put_attrs) : aio string :=
  AwaitPut key data attrs Return.

Definition storage_delete (key : string) : aio unit :=
  AwaitDelete key Return.

(** Modelled from the spec: the bucket ([tc_aws/aws/bucket.py], which is not
    among the sources), an object store with [get(key)] returning a
    descriptor or nothing, [put(key, bytes, attributes)] returning the key,
    and [delete(key)]. *)
Record Bucket (S : Type) := mk_Bucket {
  bucket_get : S -> string -> option Response;
  bucket_put : S -> string -> string -> put_attrs -> string * S;
  bucket_delete : S -> string -> S
}.

Arguments mk_Bucket {S} _ _ _.
Arguments bucket_get {S} _ _ _.
Arguments bucket_put {S} _ _ _ _ _.
Arguments bucket_delete {S} _ _ _.

(** The calls a program made on the bucket. *)
Inductive call :=
| CallGet (key : string)
| CallPut (key data : string) (attrs : put_attrs)
| CallDelete (key : string).

Record outcome (S A : Type) := mk_outcome {
  result : A + exn;
  final : S;
  calls : list call
}.

Arguments mk_outcome {S A} _ _ _.
Arguments result {S A} _.
Arguments final {S A} _.
Arguments calls {S A} _.

(** Running a program against a bucket in state [s]; [log] holds the calls
    made so far, oldest first. *)
Fixpoint run_from {S A : Type} (b : Bucket S) (p : aio A) (s : S) (log : list call)
  : outcome S A :=
  match p with
  | Return a => mk_outcome (inl a) s log
  | Raise e => mk_outcome (inr e) s log
  | AwaitGet key k => run_from b (k (bucket_get b s key)) s (log ++ [CallGet key])
  | AwaitPut key data attrs k =>
      let '(r, s') := bucket_put b s key data attrs in
      run_from b (k r) s' (log ++ [CallPut key data attrs])
  | AwaitDelete key k =>
      run_from b (k tt) (bucket_delete b s key) (log ++ [CallDelete key])
  end.

Definition run {S A : Type} (b : Bucket S) (p : aio A) (s : S) : outcome S A :=
  run_from b p s [].

Section Facade.

(** [json.loads] and [json.dumps] on the detector data. *)
Variable detector_data : Type.
Variable loads : string -> detector_data.
Variable dumps : detector_data -> string.

Variable self : AwsStorage.

Definition get (path : string) : aio (option Response) :=
  let file_abspath := _normalize_path self path in
  storage_get file_abspath.

(** [config_prefix is 'TC_AWS_RESULT_STORAGE'] compares identities, not
    texts. *)
Definition set_ (bytes abspath : string) : aio string :=
  let metadata : gmap string string :=
    if is_result_storage_literal (config_prefix self)
       && TC_AWS_STORE_METADATA (config (context self))
    then headers (context self)
    else ∅ in
  storage_put abspath bytes
    (mk_put_attrs metadata
                  (TC_AWS_STORAGE_RRS (config (context self)))
                  (TC_AWS_STORAGE_SSE (config (context self)))).

Definition remove (abspath : string) : aio unit :=
  storage_delete abspath.

Definition exists_ (path : string) : aio bool :=
  let file_abspath := _normalize_path self path in
  file_key ← storage_get file_abspath;
  match file_key with
  | None => mret false
  | Some k =>
      if negb (response_truthy file_key) || error_truthy (_get_error k)
      then mret false
      else mret true
  end.

(** The test [not file_key or self._get_error(file_key) or
    self.is_expired(file_key)] shared by the read paths. *)
Definition unusable (now : DateTime.datetime) (file_key : option Response) : bool :=
  match file_key with
  | None => true
  | Some k =>
      negb (response_truthy file_key) || error_truthy (_get_error k)
      || is_expired self now file_key
  end.

Definition get_crypto (now : DateTime.datetime) (path : string)
  : aio (option body_value) :=
  let file_abspath := _normalize_path self path in
  let crypto_path := crypto_path file_abspath in
  file_key ← storage_get crypto_path;
  if unusable now file_key then mret None
  else mret (file_key ≫= Body).

Definition put_crypto (path : string) : aio (option string) :=
  if negb (STORES_CRYPTO_KEY_FOR_EACH_IMAGE (config (context self))) then mret None
  else
    match security_key (server (context self)) with
    | Some key =>
        if negb (PyStr.truthy key) then
          Raise (RuntimeError
            "STORES_CRYPTO_KEY_FOR_EACH_IMAGE can't be True if no SECURITY_KEY specified")
        else
          let file_abspath := _normalize_path self path in
          let crypto_path := crypto_path file_abspath in
          _ ← set_ key crypto_path;
          mret (Some crypto_path)
    | None =>
        Raise (RuntimeError
          "STORES_CRYPTO_KEY_FOR_EACH_IMAGE can't be True if no SECURITY_KEY specified")
    end.

Definition get_detector_data (now : DateTime.datetime) (path : string)
  : aio (option detector_data) :=
  let file_abspath := _normalize_path self path in
  let path := detectors_path file_abspath in
  file_key ← storage_get path;
  if unusable now file_key then mret None
  else
    match file_key ≫= Body with
    | None => mret None
    | Some body =>
        match read body with
        | inl e => Raise (AttributeErr e)
        | inr content => mret (Some (loads content))
        end
    end.

Definition put_detector_data (path : string) (data : detector_data) : aio string :=
  let file_abspath := _normalize_path self path in
  let path := detectors_path file_abspath in
  set_ (dumps data) path.

End Facade.

(** ** [last_updated]

    The method reads [self.context.request.url] first: on a context that
    has no [request] attribute this raises [AttributeError] when the
    coroutine starts, before anything is awaited. *)

(** The test of [on_file_fetched] is that of the other read paths followed
    by ['LastModified' not in file]; a descriptor that fails the last test
    has no time stamp to return. *)
Definition last_updated (self : AwsStorage) (now : DateTime.datetime)
  : attribute_error + aio (option DateTime.datetime) :=
  match request (context self) with
  | None => inl (AttributeError "request")
  | Some r =>
      let path := url r in
      let file_abspath := _normalize_path self path in
      inr (file ← storage_get file_abspath;
           if unusable self now file then mret None
           else mret (file ≫= LastModified))
  end.

(** The storage whose request is for [u] and accepts WebP or not. *)
Definition with_request (u : string) (webp : bool) (self : AwsStorage) : AwsStorage :=
  mk_AwsStorage
    (mk_Context (config (context self)) (Some (mk_Request u webp))
                (server (context self)) (headers (context self)))
    (config_prefix self)
    (storage_expiration_seconds self).

(** Lower-case hexadecimal text, the alphabet of [hexdigest()]. *)
Definition is_hex_digit (a : ascii) : bool :=
  match a with
  | "0" | "1" | "2" | "3" | "4" | "5" | "6" | "7" | "8" | "9"
  | "a" | "b" | "c" | "d" | "e" | "f" => true
  | _ => false
  end%char.

Fixpoint all_hex (s : string) : bool :=
  match s with
  | EmptyString => true
  | String a s' => is_hex_digit a && all_hex s'
  end.

(** ** An in-memory bucket and sample storages for running the model *)

(** Objects by key; [put] stores the data with the time stamp [stamp] and
    answers the key; [get] hands the data out as the [str] that was put. *)
Definition mem_bucket (stamp : DateTime.datetime) : Bucket (gmap string Response) :=
  mk_Bucket
    (fun s key => s !! key)
    (fun s key data _ =>
       (key, <[key := mk_Response (Some (BodyText data)) (Some stamp) None 0]> s))
    (fun s key => delete key s).

(** The same, with [get] handing the data out as a stream to read. *)
Definition stream_bucket (stamp : DateTime.datetime) : Bucket (gmap string Response) :=
  mk_Bucket
    (fun s key => s !! key)
    (fun s key data _ =>
       (key, <[key := mk_Response (Some (BodyStream data)) (Some stamp) None 0]> s))
    (fun s key => delete key s).

(** A storage with the given policy; the request accepts WebP, so
    [is_auto_webp] is [auto_webp]. *)
Definition storage_with (root_path : option string) (randomize_keys auto_webp : bool)
    (root_image_name : string) (ttl_seconds : option Z) : AwsStorage :=
  mk_AwsStorage
    (mk_Context
       (mk_Config auto_webp "bucket" root_path randomize_keys root_image_name
                  false false false false)
       (Some (mk_Request "/" true))
       (mk_Server None)
       ∅)
    ResultStorageLiteral
    ttl_seconds.

(** The same storage with the per-image crypto key policy switched on and
    the given server key. *)
Definition crypto_storage (key : option string) : AwsStorage :=
  mk_AwsStorage
    (mk_Context
       (mk_Config false "bucket" None false "image.jpg" false false false true)
       None
       (mk_Server key)
       ∅)
    (OtherStr "TC_AWS_STORAGE")
    None.

(** The storage with [TC_AWS_RANDOMIZE_KEYS] set to [b] and nothing else
    changed. *)
Definition set_randomize_keys (b : bool) (self : AwsStorage) : AwsStorage :=
  let ctx := context self in
  let c := config ctx in
  mk_AwsStorage
    (mk_Context
       (mk_Config (AUTO_WEBP c) (BUCKET c) (ROOT_PATH c) b
                  (TC_AWS_ROOT_IMAGE_NAME c) (TC_AWS_STORE_METADATA c)
                  (TC_AWS_STORAGE_RRS c) (TC_AWS_STORAGE_SSE c)
                  (STORES_CRYPTO_KEY_FOR_EACH_IMAGE c))
       (request ctx) (server ctx) (headers ctx))
    (config_prefix self)
    (storage_expiration_seconds self).

(** A descriptor holding a body and a time stamp. *)
Definition object_at (stamp : DateTime.datetime) : Response :=
  mk_Response (Some (BodyStream "data")) (Some stamp) None 1.

(** A descriptor holding an in-band error with the given entries. *)
Definition error_response (e : error_mapping) : Response :=
  mk_Response None None (Some e) 1.

(** A descriptor holding an in-band error and a time stamp. *)
Definition stamped_error_response (e : error_mapping) (stamp : DateTime.datetime)
  : Response :=
  mk_Response None (Some stamp) (Some e) 1.

(** A storage with [TC_AWS_STORE_METADATA] on, the given prefix object and
    one response header. *)
Definition metadata_storage (prefix : prefix_object) : AwsStorage :=
  mk_AwsStorage
    (mk_Context
       (mk_Config false "bucket" None false "image.jpg" true false false false)
       None
       (mk_Server None)
       {["Content-Type" := "image/jpeg"]})
    prefix
    None.

(** * Properties *)

(** ** Known answers of the library functions *)

Example sha1_abc :
  SHA1.hexdigest (encode_utf8 "abc") = "a9993e364706816aba3e25717850c26c9cd0d89d".
Proof. vm_compute. reflexivity. Qed.

Example sha1_empty :
  SHA1.hexdigest (encode_utf8 "") = "da39a3ee5e6b4b0d3255bfef95601890afd80709".
Proof. vm_compute. reflexivity. Qed.

Example sha1_two_blocks :
  SHA1.hexdigest (encode_utf8 "abcdbcdecdefdefgefghfghighijhijkijkljklmklmnlmnomnopnopq")
  = "84983e441c3bd26ebaae4aa1f95129e5e54670f1".
Proof. vm_compute. reflexivity. Qed.

Example splitext_ex1 : PosixPath.splitext "a/b.jpg" = ("a/b", ".jpg").
Proof. reflexivity. Qed.
Example splitext_ex2 : PosixPath.splitext "a/.bashrc" = ("a/.bashrc", "").
Proof. reflexivity. Qed.
Example splitext_ex3 : PosixPath.splitext "a.b/c" = ("a.b/c", "").
Proof. reflexivity. Qed.
Example splitext_ex4 : PosixPath.splitext "a/b.tar.gz" = ("a/b.tar", ".gz").
Proof. reflexivity. Qed.
Example splitext_ex5 : PosixPath.splitext "..." = ("...", "").
Proof. reflexivity. Qed.
Example join_ex1 : PosixPath.join "a" ["b"; "c/"; "d"] = "a/b/c/d".
Proof. reflexivity. Qed.
Example join_ex2 : PosixPath.join "a" ["/b"; "c"] = "/b/c".
Proof. reflexivity. Qed.
Example join_ex3 : PosixPath.join "" ["b"] = "b".
Proof. reflexivity. Qed.

(** ** The clock arithmetic *)

Module DateTimeFacts.
Import DateTime.

(** The [seconds] attribute is the elapsed whole seconds modulo one day. *)
Lemma seconds_of_microseconds (us : Z) :
  seconds (of_microseconds us) = (us / us_per_second) mod seconds_per_day.
Proof.
  unfold of_microseconds, us_per_day, seconds_per_day, us_per_second; simpl.
  rewrite (Z.mul_comm 86400 1000000).
  rewrite Z.rem_mul_r by lia.
  rewrite (Z.mul_comm 1000000), Z.div_add by lia.
  rewrite (Z.div_small (us mod 1000000)) by (apply Z.mod_pos_bound; lia).
  reflexivity.
Qed.

Lemma seconds_range (us : Z) :
  0 <= seconds (of_microseconds us) < seconds_per_day.
Proof.
  rewrite seconds_of_microseconds. apply Z.mod_pos_bound. reflexivity.
Qed.

Lemma to_microseconds_of_microseconds (us : Z) :
  to_microseconds (of_microseconds us) = us.
Proof.
  unfold to_microseconds.
  rewrite seconds_of_microseconds.
  unfold of_microseconds, us_per_day, seconds_per_day, us_per_second; simpl.
  pose proof (Z.div_mod us (86400 * 1000000) ltac:(lia)) as H1.
  replace (86400 * 1000000) with (1000000 * 86400) in * by reflexivity.
  rewrite Z.rem_mul_r in H1 by lia.
  lia.
Qed.

Lemma whole_seconds_of_microseconds (us : Z) :
  whole_seconds (of_microseconds us) = us / us_per_second.
Proof. unfold whole_seconds. now rewrite to_microseconds_of_microseconds. Qed.

Lemma seconds_is_whole_seconds_mod_day (us : Z) :
  seconds (of_microseconds us)
  = whole_seconds (of_microseconds us) mod seconds_per_day.
Proof. now rewrite whole_seconds_of_microseconds, seconds_of_microseconds. Qed.

Lemma seconds_within_a_day (us : Z) :
  0 <= us < us_per_day ->
  seconds (of_microseconds us) = whole_seconds (of_microseconds us).
Proof.
  intros H. rewrite seconds_is_whole_seconds_mod_day.
  apply Z.mod_small. rewrite whole_seconds_of_microseconds.
  unfold us_per_day, seconds_per_day, us_per_second in *.
  split.
  - apply Z.div_pos; lia.
  - apply Z.div_lt_upper_bound; lia.
Qed.

End DateTimeFacts.

(** ** Expiry policy *)

Section Expiry.
Import DateTime.

Variable self : AwsStorage.
Variable now : datetime.

(** On a descriptor with a time stamp and no error entry the outcome is the
    comparison of the [seconds] attribute with the horizon. *)
Lemma is_expired_valid (k : Response) (t : datetime) :
  Error k = None ->
  LastModified k = Some t ->
  is_expired self now (Some k)
  = match storage_expiration_seconds self with
    | None => false
    | Some e => if e =? 0 then false
                else ((now - t) / us_per_second) mod seconds_per_day >? e
    end.
Proof.
  intros He Ht. unfold is_expired, response_truthy, response_len, _get_error.
  rewrite He, Ht. simpl.
  replace (entry (Body k) + 1 + 0 + other_entries k =? 0)%nat with false
    by (symmetry; apply Nat.eqb_neq; lia).
  simpl.
  destruct (storage_expiration_seconds self) as [e|]; [|reflexivity].
  destruct (e =? 0); [reflexivity|].
  now rewrite <- DateTimeFacts.seconds_of_microseconds.
Qed.

(** X9: for an object less than a day old the outcome is the comparison of the
    elapsed whole seconds with the horizon. *)
Lemma is_expired_within_a_day (k : Response) (t : datetime) (ttl : Z) :
  Error k = None ->
  LastModified k = Some t ->
  storage_expiration_seconds self = Some ttl ->
  0 < ttl ->
  0 <= now - t < us_per_day ->
  is_expired self now (Some k) = (whole_seconds (sub now t) >? ttl).
Proof.
  intros He Ht Hs Hpos Hage.
  rewrite (is_expired_valid k t He Ht), Hs.
  replace (ttl =? 0) with false by (symmetry; apply Z.eqb_neq; lia).
  unfold sub.
  rewrite <- DateTimeFacts.seconds_of_microseconds.
  now rewrite DateTimeFacts.seconds_within_a_day.
Qed.

(** X10: for any age the outcome is the comparison of the elapsed whole seconds
    modulo one day with the horizon. *)
Lemma is_expired_modulo_a_day (k : Response) (t : datetime) (ttl : Z) :
  Error k = None ->
  LastModified k = Some t ->
  storage_expiration_seconds self = Some ttl ->
  0 < ttl ->
  is_expired self now (Some k)
  = (whole_seconds (sub now t) mod seconds_per_day >? ttl).
Proof.
  intros He Ht Hs Hpos.
  rewrite (is_expired_valid k t He Ht), Hs.
  replace (ttl =? 0) with false by (symmetry; apply Z.eqb_neq; lia).
  unfold sub. now rewrite DateTimeFacts.whole_seconds_of_microseconds.
Qed.

(** X11: a horizon of a day less one second, or more, is never exceeded:
    nothing expires. *)
Lemma is_expired_long_horizon (k : Response) (t : datetime) (ttl : Z) :
  Error k = None ->
  LastModified k = Some t ->
  storage_expiration_seconds self = Some ttl ->
  seconds_per_day - 1 <= ttl ->
  is_expired self now (Some k) = false.
Proof.
  intros He Ht Hs Hlong.
  rewrite (is_expired_valid k t He Ht), Hs.
  destruct (ttl =? 0); [reflexivity|].
  pose proof (Z.mod_pos_bound ((now - t) / us_per_second) seconds_per_day
                ltac:(reflexivity)).
  rewrite Z.gtb_ltb. apply Z.ltb_ge. lia.
Qed.

(** [is_expired] answers true when the descriptor is absent (nothing, or
    an empty mapping), when it carries an error entry whose message is not
    [None] (a text, or no message at all), and when it has no
    [LastModified] entry, whatever the expiry horizon of the storage. *)
Lemma is_expired_bad_key (key : option Response) :
  (key = None \/
   exists k, key = Some k /\
     (response_len k = 0%nat
      \/ (exists e, Error k = Some e /\ e !! "Message" <> Some None)
      \/ LastModified k = None)) ->
  is_expired self now key = true.
Proof.
  intros [-> | (k & -> & H)]; [reflexivity|].
  unfold is_expired, response_truthy.
  destruct H as [H | [(e & He & Hm) | H]].
  - rewrite H. reflexivity.
  - destruct (negb (response_len k =? 0)%nat); [|reflexivity]. simpl.
    unfold _get_error. rewrite He.
    destruct (e !! "Message") as [[m|]|]; [reflexivity | congruence | reflexivity].
  - rewrite H. now destruct (_ && _).
Qed.

(** C8: on a descriptor with no error entry and a [LastModified] entry (a
    mapping that has that entry is not empty), [is_expired] answers false
    when the horizon is [None] or [0], for every clock reading. *)
Theorem is_expired_never_expire (k : Response) (t : datetime) :
  Error k = None ->
  LastModified k = Some t ->
  (storage_expiration_seconds self = None
   \/ storage_expiration_seconds self = Some 0) ->
  is_expired self now (Some k) = false.
Proof.
  intros He Ht Hs. rewrite (is_expired_valid k t He Ht).
  destruct Hs as [-> | ->]; reflexivity.
Qed.

End Expiry.

Lemma is_expired_bad_key_witness :
  is_expired (storage_with None false false "image.jpg" None) 0
             (Some (stamped_error_response {["Message" := Some "Internal Error"]} 0))
  = true.
Proof.
  apply is_expired_bad_key. right.
  exists (stamped_error_response {["Message" := Some "Internal Error"]} 0).
  split; [reflexivity|]. right; left.
  exists {["Message" := Some "Internal Error"]}. split; [reflexivity|].
  vm_compute. discriminate.
Defined.

(** C7: a descriptor that carries an error entry whose message is [None],
    and a time stamp, is not counted as expired: [_get_error] returns the
    message as it is, so its answer is [None] and the test [is None] of
    [is_expired] takes the descriptor for one without error.  With no
    horizon, and with a horizon of 60 seconds at an age of one second,
    [is_expired] answers false. *)
Theorem is_expired_false_on_error_with_none_message :
  Error (stamped_error_response
           {["Code" := Some "InternalError"; "Message" := None]} 0) <> None
  /\ _get_error (stamped_error_response
                   {["Code" := Some "InternalError"; "Message" := None]} 0) = None
  /\ is_expired (storage_with None false false "image.jpg" None) 0
       (Some (stamped_error_response
                {["Code" := Some "InternalError"; "Message" := None]} 0)) = false
  /\ is_expired (storage_with None false false "image.jpg" (Some 60)) 1000000
       (Some (stamped_error_response
                {["Code" := Some "InternalError"; "Message" := None]} 0)) = false.
Proof. repeat split; try discriminate; vm_compute; reflexivity. Qed.

Lemma is_expired_never_expire_witness :
  is_expired (storage_with None false false "image.jpg" (Some 0))
             (1000 * DateTime.us_per_day) (Some (object_at 0)) = false.
Proof.
  apply (is_expired_never_expire _ _ (object_at 0) 0).
  - reflexivity.
  - reflexivity.
  - right. reflexivity.
Defined.

(** The boundary of the horizon: with a horizon of 60 seconds an object
    aged 60.999 s is kept and one aged 61 s is expired. *)
Example is_expired_boundary :
  is_expired (storage_with None false false "image.jpg" (Some 60))
             60999000 (Some (object_at 0)) = false
  /\ is_expired (storage_with None false false "image.jpg" (Some 60))
                61000000 (Some (object_at 0)) = true.
Proof. split; reflexivity. Qed.

(** C1: with a horizon of 60 seconds, an object last modified exactly 24
    hours before the clock reading is reported as not expired, although
    86400 whole seconds have elapsed: [timediff.seconds] is the seconds
    attribute of the difference, which leaves the days out. *)
Theorem is_expired_loses_whole_days :
  is_expired (storage_with None false false "image.jpg" (Some 60))
             (24 * 3600 * 1000000) (Some (object_at 0)) = false
  /\ DateTime.whole_seconds (DateTime.sub (24 * 3600 * 1000000) 0) = 86400
  /\ (86400 >? 60) = true.
Proof. repeat split. Qed.

(** ** Facts on the string methods *)

Module PyStrFacts.
Import PyStr.

Lemma app_nil_r (s : string) : s +:+ "" = s.
Proof. induction s as [|a s IH]; simpl; [reflexivity | now rewrite IH]. Qed.

Lemma app_assoc (a b c : string) : (a +:+ b) +:+ c = a +:+ b +:+ c.
Proof. induction a as [|x a IH]; simpl; [reflexivity | now rewrite IH]. Qed.

Lemma length_app (a b : string) :
  String.length (a +:+ b) = (String.length a + String.length b)%nat.
Proof. induction a as [|x a IH]; simpl; [reflexivity | now rewrite IH]. Qed.

Lemma app_eq_nil (a b : string) : a +:+ b = "" -> a = "" /\ b = "".
Proof. destruct a; simpl; [auto | discriminate]. Qed.

Lemma prefix_nil (s : string) : String.prefix "" s = true.
Proof. now destruct s. Qed.

Lemma startswith_cons (a c : ascii) (s : string) :
  startswith (String a s) (String c "") = Ascii.eqb a c.
Proof.
  unfold startswith; simpl.
  destruct (ascii_dec c a) as [->|Hne].
  - now rewrite prefix_nil, Ascii.eqb_refl.
  - symmetry. apply Ascii.eqb_neq. congruence.
Qed.

Lemma startswith_app (a b : string) (c : ascii) :
  startswith (a +:+ b) (String c "")
  = if String.eqb a "" then startswith b (String c "")
    else startswith a (String c "").
Proof.
  destruct a as [|x a]; [reflexivity|].
  simpl (_ +:+ _). simpl (String.eqb _ _). now rewrite !startswith_cons.
Qed.

Lemma truthy_false (s : string) : truthy s = false <-> s = "".
Proof.
  unfold truthy. rewrite negb_false_iff. apply String.eqb_eq.
Qed.

Lemma endswith_nil (c : ascii) : endswith "" (String c "") = false.
Proof. reflexivity. Qed.

Lemma endswith_cons (a c : ascii) (s : string) :
  endswith (String a s) (String c "")
  = if String.eqb s "" then Ascii.eqb a c else endswith s (String c "").
Proof.
  destruct s as [|b s].
  - simpl. now destruct (Ascii.eqb a c).
  - change (endswith (String a (String b s)) (String c ""))
      with (String.eqb (String a (String b s)) (String c "")
            || endswith (String b s) (String c "")).
    replace (String.eqb (String a (String b s)) (String c "")) with false;
      [reflexivity|].
    simpl. now destruct (Ascii.eqb a c).
Qed.

(** The last character of a concatenation is that of its right part,
    unless this is empty. *)
Lemma endswith_app (a b : string) (c : ascii) :
  endswith (a +:+ b) (String c "")
  = if String.eqb b "" then endswith a (String c "")
    else endswith b (String c "").
Proof.
  induction a as [|x a IH].
  - simpl (_ +:+ _). destruct b; reflexivity.
  - simpl (_ +:+ _). rewrite !endswith_cons, IH.
    destruct b as [|y b].
    + rewrite app_nil_r. reflexivity.
    + simpl (String.eqb (String y b) "").
      replace (String.eqb (a +:+ String y b) "") with false; [reflexivity|].
      symmetry. apply String.eqb_neq. intros H.
      apply app_eq_nil in H. now destruct H.
Qed.

Lemma endswith_refl_app (a s : string) : endswith (a +:+ s) s = true.
Proof.
  induction a as [|x a IH]; simpl (_ +:+ _).
  - destruct s; simpl; now rewrite ?String.eqb_refl, ?Ascii.eqb_refl.
  - simpl. rewrite IH. apply orb_true_r.
Qed.

Lemma lstrip_all_are (c : ascii) (s : string) :
  all_are c s = true -> lstrip c s = "".
Proof.
  induction s as [|a s IH]; simpl; [reflexivity|].
  destruct (Ascii.eqb a c); simpl; [exact IH | discriminate].
Qed.

Lemma lstrip_not_startswith (c : ascii) (s : string) :
  startswith (lstrip c s) (String c "") = false.
Proof.
  induction s as [|a s IH]; simpl; [reflexivity|].
  destruct (Ascii.eqb a c) eqn:E; [exact IH|].
  now rewrite startswith_cons.
Qed.

Lemma lstrip_id (c : ascii) (s : string) :
  startswith s (String c "") = false -> lstrip c s = s.
Proof.
  destruct s as [|a s]; [reflexivity|].
  rewrite startswith_cons. simpl. now intros ->.
Qed.

(** Stripping stops at the first other character. *)
Lemma lstrip_app_stop (c a : ascii) (x s : string) :
  Ascii.eqb a c = false ->
  lstrip c (x +:+ String a s) = lstrip c x +:+ String a s.
Proof.
  intros Ha. induction x as [|y x IH]; simpl.
  - now rewrite Ha.
  - destruct (Ascii.eqb y c); [exact IH | reflexivity].
Qed.

Lemma contains_app (c : ascii) (a b : string) :
  contains c (a +:+ b) = contains c a || contains c b.
Proof.
  induction a as [|x a IH]; simpl; [reflexivity|].
  now rewrite IH, orb_assoc.
Qed.

Lemma doubled_cons (c a : ascii) (s : string) :
  doubled c (String a s)
  = (Ascii.eqb a c && startswith s (String c "")) || doubled c s.
Proof.
  destruct s as [|b s].
  - simpl. now rewrite andb_false_r.
  - now rewrite startswith_cons.
Qed.

(** Two adjacent [c] in a concatenation lie in one part or across the
    junction. *)
Lemma doubled_app (c : ascii) (a b : string) :
  doubled c (a +:+ b)
  = doubled c a || doubled c b
    || (endswith a (String c "") && startswith b (String c "")).
Proof.
  induction a as [|x a IH].
  - simpl (_ +:+ _). simpl (doubled c ""). rewrite endswith_nil. simpl.
    now rewrite orb_false_r.
  - simpl (_ +:+ _). rewrite !doubled_cons, IH, endswith_cons, startswith_app.
    destruct (String.eqb a "") eqn:Ea.
    + apply String.eqb_eq in Ea. subst a. simpl.
      destruct (Ascii.eqb x c), (startswith b (String c "")), (doubled c b);
        reflexivity.
    + destruct (Ascii.eqb x c), (startswith a (String c "")), (doubled c a),
        (doubled c b), (endswith a (String c "")), (startswith b (String c ""));
        reflexivity.
Qed.

Lemma doubled_lstrip (c d : ascii) (s : string) :
  doubled c (lstrip d s) = true -> doubled c s = true.
Proof.
  induction s as [|a s IH]; simpl (lstrip _ _); [auto|].
  destruct (Ascii.eqb a d); [|auto].
  intros H. rewrite doubled_cons, (IH H). apply orb_true_r.
Qed.

Lemma first_field_app (c : ascii) (a b : string) :
  contains c a = false ->
  first_field c (a +:+ String c b) = a.
Proof.
  induction a as [|x a IH]; simpl.
  - now rewrite Ascii.eqb_refl.
  - intros H. apply orb_false_elim in H as [Hx Ha].
    now rewrite Hx, IH.
Qed.

End PyStrFacts.

(** ** Facts on [posixpath.join] *)

Module PosixPathFacts.
Import PyStr PyStrFacts PosixPath.

(** A relative component is appended, after one separator unless the path
    is empty or ends with one. *)
Lemma join_step_relative (path b : string) :
  startswith b "/" = false ->
  join_step path b
  = if negb (truthy path) || endswith path "/" then path +:+ b
    else path +:+ "/" +:+ b.
Proof. intros H. unfold join_step, sep. now rewrite H. Qed.

Lemma join_step_suffix (path b : string) :
  exists x, join_step path b = x +:+ b.
Proof.
  unfold join_step.
  destruct (startswith b sep).
  - now exists "".
  - destruct (negb (truthy path) || endswith path sep).
    + now exists path.
    + exists (path +:+ sep). now rewrite app_assoc.
Qed.

Lemma join_snoc (a b : string) (l : list string) :
  join a (l ++ [b]) = join_step (join a l) b.
Proof. unfold join. now rewrite fold_left_app. Qed.

Lemma join_cons (a b : string) (l : list string) :
  join a (b :: l) = join (join_step a b) l.
Proof. reflexivity. Qed.

(** The join starts with a separator only if a component does. *)
Lemma join_step_startswith (path b : string) :
  startswith (join_step path b) "/" = true ->
  startswith path "/" = true \/ startswith b "/" = true.
Proof.
  unfold join_step, sep.
  destruct (startswith b "/") eqn:Hb; [auto|].
  destruct path as [|x path]; [simpl; congruence|].
  destruct (negb (truthy (String x path)) || endswith (String x path) "/");
    simpl (_ +:+ _); rewrite !startswith_cons; auto.
Qed.

Lemma join_startswith (l : list string) (a : string) :
  startswith (join a l) "/" = true ->
  startswith a "/" = true \/ Exists (fun b => startswith b "/" = true) l.
Proof.
  revert a. induction l as [|b l IH]; intros a H; [auto|].
  rewrite join_cons in H.
  destruct (IH _ H) as [H1 | H1].
  - destruct (join_step_startswith _ _ H1); auto.
  - auto.
Qed.

(** A join step puts no two separators side by side. *)
Lemma join_step_doubled (path b : string) :
  doubled "/" (join_step path b) = true ->
  doubled "/" path = true \/ doubled "/" b = true.
Proof.
  unfold join_step, sep.
  destruct (startswith b "/") eqn:Hb; [auto|].
  destruct (negb (truthy path) || endswith path "/") eqn:Hp.
  - rewrite doubled_app, Hb, andb_false_r, orb_false_r.
    intros H. now apply orb_true_iff in H.
  - apply orb_false_elim in Hp as [_ Hp].
    rewrite !doubled_app, Hb, Hp. simpl.
    rewrite !orb_false_r. intros H. now apply orb_true_iff in H.
Qed.

Lemma join_doubled (l : list string) (a : string) :
  doubled "/" (join a l) = true ->
  doubled "/" a = true \/ Exists (fun b => doubled "/" b = true) l.
Proof.
  revert a. induction l as [|b l IH]; intros a H; [auto|].
  rewrite join_cons in H.
  destruct (IH _ H) as [H1 | H1].
  - destruct (join_step_doubled _ _ H1); auto.
  - auto.
Qed.

(** Joining relative components under a first component [d] that is not
    empty and does not end with a separator puts [d] and one separator in
    front of their own join. *)
Lemma join_step_under (d p b : string) :
  startswith b "/" = false ->
  join_step (d +:+ "/" +:+ p) b = d +:+ "/" +:+ join_step p b.
Proof.
  intros Hb. rewrite !join_step_relative by exact Hb.
  replace (truthy (d +:+ "/" +:+ p)) with true.
  2:{ symmetry. apply not_false_iff_true. rewrite truthy_false.
      intros H. apply app_eq_nil in H as [_ H]. discriminate. }
  rewrite endswith_app. simpl (String.eqb ("/" +:+ p) "").
  change ("/" +:+ p) with (String "/" p) at 1.
  rewrite endswith_cons. simpl (negb true || _).
  unfold truthy.
  destruct (String.eqb p "") eqn:Hp; simpl.
  - now rewrite !app_assoc.
  - destruct (endswith p "/"); now rewrite !app_assoc.
Qed.

Lemma join_under_from (d : string) (l : list string) (p : string) :
  Forall (fun b => startswith b "/" = false) l ->
  join (d +:+ "/" +:+ p) l = d +:+ "/" +:+ join p l.
Proof.
  intros Hl. revert p. induction Hl as [|b l Hb Hl IH]; intros p; [reflexivity|].
  rewrite !join_cons, join_step_under by exact Hb. apply IH.
Qed.

Lemma join_under (d x : string) (l : list string) :
  truthy d = true ->
  endswith d "/" = false ->
  Forall (fun b => startswith b "/" = false) (x :: l) ->
  join d (x :: l) = d +:+ "/" +:+ join x l.
Proof.
  intros Hd He Hl. inversion Hl as [|? ? Hx Hl']; subst.
  rewrite join_cons, join_step_relative by exact Hx.
  rewrite Hd, He. cbn [negb orb].
  now apply join_under_from.
Qed.

End PosixPathFacts.

(** ** Facts on the digest *)

Module SHA1Facts.
Import PyStr PyStrFacts SHA1.

Lemma hexdigit_not_slash (n : Z) : Ascii.eqb (hexdigit n) "/" = false.
Proof.
  unfold hexdigit.
  destruct (n mod 16) as [|p|p]; try reflexivity.
  do 4 (destruct p as [p|p|]; try reflexivity).
Qed.

Lemma hex_no_slash (n : nat) (x : Z) : contains "/" (hex n x) = false.
Proof.
  induction n as [|n IH]; simpl; [reflexivity|].
  now rewrite hexdigit_not_slash, IH.
Qed.

Lemma hex_length (n : nat) (x : Z) : String.length (hex n x) = n.
Proof. induction n as [|n IH]; simpl; [reflexivity | now rewrite IH]. Qed.

(** The digest is 40 characters long. *)
Lemma hexdigest_length (data : list byte) : String.length (hexdigest data) = 40%nat.
Proof.
  unfold hexdigest, hex_state. now rewrite !length_app, !hex_length.
Qed.

(** The digest holds no separator. *)
Lemma hexdigest_no_slash (data : list byte) : contains "/" (hexdigest data) = false.
Proof.
  unfold hexdigest, hex_state. now rewrite !contains_app, !hex_no_slash.
Qed.

Lemma contains_endswith (c : ascii) (s : string) :
  contains c s = false -> endswith s (String c "") = false.
Proof.
  induction s as [|a s IH]; [reflexivity|].
  simpl (contains _ _). intros H. apply orb_false_elim in H as [Ha Hs].
  rewrite endswith_cons, Ha, (IH Hs). now destruct (String.eqb s "").
Qed.

Lemma contains_startswith (c : ascii) (s : string) :
  contains c s = false -> startswith s (String c "") = false.
Proof.
  destruct s as [|a s]; [reflexivity|].
  simpl (contains _ _). intros H. apply orb_false_elim in H as [Ha Hs].
  now rewrite startswith_cons.
Qed.

Lemma contains_doubled (c : ascii) (s : string) :
  contains c s = false -> doubled c s = false.
Proof.
  induction s as [|a s IH]; [reflexivity|].
  simpl (contains _ _). intros H. apply orb_false_elim in H as [Ha Hs].
  now rewrite doubled_cons, Ha, (IH Hs).
Qed.

Lemma hexdigest_truthy (data : list byte) : truthy (hexdigest data) = true.
Proof.
  pose proof (hexdigest_length data) as H.
  destruct (hexdigest data); [discriminate | reflexivity].
Qed.

End SHA1Facts.

(** ** Key derivation *)

Section KeyDerivation.
Import PyStr PyStrFacts PosixPath PosixPathFacts SHA1Facts.

Variable self : AwsStorage.
Variable path : string.


(** The four shapes of the segment list before the digest. *)
Lemma plain_segments_shape :
  plain_segments self path = [lstrip "/" path]
  \/ plain_segments self path = [lstrip "/" path; "webp"]
  \/ exists r, root_path self = Some r /\ truthy r = true /\
       (plain_segments self path = [r; lstrip "/" path]
        \/ plain_segments self path = [r; lstrip "/" path; "webp"]).
Proof.
  unfold plain_segments.
  destruct (root_path self) as [r|];
    [destruct (truthy r) eqn:Hr|]; destruct (is_auto_webp self); simpl; eauto 10.
Qed.

Lemma plain_segments_no_root :
  opt_truthy (root_path self) = false ->
  plain_segments self path
  = if is_auto_webp self then [lstrip "/" path; "webp"] else [lstrip "/" path].
Proof.
  unfold plain_segments, opt_truthy.
  destruct (root_path self) as [r|]; [intros ->|intros _];
    now destruct (is_auto_webp self).
Qed.

Lemma path_segments_randomized :
  _should_randomize_key self = true ->
  path_segments self path
  = _generate_digest (plain_segments self path) :: plain_segments self path.
Proof. unfold path_segments. now intros ->. Qed.

Lemma path_segments_plain :
  _should_randomize_key self = false ->
  path_segments self path = plain_segments self path.
Proof. unfold path_segments. now intros ->. Qed.

Lemma stripped_relative : startswith (lstrip "/" path) "/" = false.
Proof. apply lstrip_not_startswith. Qed.

(** Every segment is the digest, the root path, the (lstrip "/" path) path or
    [webp]. *)
Lemma path_segments_elements (seg : string) :
  In seg (path_segments self path) ->
  seg = _generate_digest (plain_segments self path)
  \/ root_path self = Some seg \/ seg = lstrip "/" path \/ seg = "webp".
Proof.
  unfold path_segments.
  destruct plain_segments_shape as [H | [H | (r & Hr & _ & [H | H])]];
    rewrite H; destruct (_should_randomize_key self); simpl;
    intuition (subst; auto).
Qed.

(** When the root path is relative, so are all segments but the digest. *)
Lemma plain_segments_relative :
  (forall r, root_path self = Some r -> startswith r "/" = false) ->
  Forall (fun b => startswith b "/" = false) (plain_segments self path).
Proof.
  intros Hroot.
  destruct plain_segments_shape as [H | [H | (r & Hr & _ & [H | H])]];
    rewrite H; repeat constructor; auto using stripped_relative.
Qed.

Lemma joined_doubled (segments : list string) :
  doubled "/" (joined segments) = true ->
  Exists (fun b => doubled "/" b = true) segments.
Proof.
  destruct segments as [|s [|x rest]]; unfold joined.
  - discriminate.
  - intros H. now apply Exists_cons_hd.
  - intros H. apply doubled_lstrip, join_doubled in H.
    destruct H; [now apply Exists_cons_hd | now apply Exists_cons_tl].
Qed.

(** With relative segments the strip after the join changes nothing. *)
Lemma joined_relative (s : string) (rest : list string) :
  Forall (fun b => startswith b "/" = false) (s :: rest) ->
  joined (s :: rest) = join s rest.
Proof.
  intros Hrel. destruct rest as [|x rest]; [reflexivity|].
  simpl (joined _). apply lstrip_id.
  destruct (startswith (join s (x :: rest)) "/") eqn:E; [|reflexivity].
  apply join_startswith in E. inversion Hrel as [|? ? Hs Hrest]; subst.
  destruct E as [E | E]; [congruence|].
  apply Exists_exists in E as (b & Hb & E).
  rewrite Forall_forall in Hrest. rewrite (Hrest b Hb) in E. discriminate.
Qed.

(** Under a first segment [d] that is not empty and holds no separator,
    relative segments are joined as they are without it. *)
Lemma joined_under (d s : string) (rest : list string) :
  truthy d = true ->
  contains "/" d = false ->
  Forall (fun b => startswith b "/" = false) (s :: rest) ->
  joined (d :: s :: rest) = d +:+ "/" +:+ joined (s :: rest).
Proof.
  intros Ht Hd Hrel.
  rewrite (joined_relative _ _ Hrel).
  unfold joined.
  rewrite join_under; auto using contains_endswith.
  apply lstrip_id. rewrite startswith_app.
  rewrite (contains_startswith _ _ Hd).
  unfold truthy in Ht. apply negb_true_iff in Ht. now rewrite Ht.
Qed.

Lemma plain_segments_cons :
  exists s rest, plain_segments self path = s :: rest.
Proof.
  destruct plain_segments_shape as [H | [H | (r & _ & _ & [H | H])]];
    rewrite H; eauto.
Qed.

(** With randomisation and a relative root path the joined key is the
    digest, one separator, and the joined key without randomisation. *)
Lemma joined_randomized :
  _should_randomize_key self = true ->
  (forall r, root_path self = Some r -> startswith r "/" = false) ->
  joined (path_segments self path)
  = _generate_digest (plain_segments self path) +:+ "/"
    +:+ joined (plain_segments self path).
Proof.
  intros Hrand Hroot. rewrite (path_segments_randomized Hrand).
  pose proof (plain_segments_relative Hroot) as Hrel.
  generalize (hexdigest_truthy (encode_utf8 (str_join "." (plain_segments self path)))).
  generalize (hexdigest_no_slash (encode_utf8 (str_join "." (plain_segments self path)))).
  fold (_generate_digest (plain_segments self path)).
  generalize (_generate_digest (plain_segments self path)) as d.
  destruct plain_segments_cons as (s & rest & Hp). rewrite Hp in *.
  intros d Hd Ht. now apply joined_under.
Qed.

(** X5: the first field of a randomised key under a relative root path is
    the digest of the segments that follow it. *)
Lemma normalize_path_digest_first :
  _should_randomize_key self = true ->
  (forall r, root_path self = Some r -> startswith r "/" = false) ->
  first_field "/" (_normalize_path self path)
  = _generate_digest (plain_segments self path).
Proof.
  intros Hrand Hroot. unfold _normalize_path.
  rewrite (joined_randomized Hrand Hroot).
  generalize (hexdigest_no_slash (encode_utf8 (str_join "." (plain_segments self path)))).
  fold (_generate_digest (plain_segments self path)).
  generalize (_generate_digest (plain_segments self path)) as d.
  intros d Hd.
  destruct (endswith _ "/"); rewrite ?app_assoc;
    change ("/" +:+ ?x) with (String "/" x); now apply first_field_app.
Qed.

End KeyDerivation.

Section KeyDerivationClaims.
Import PyStr PyStrFacts PosixPath PosixPathFacts SHA1Facts.

(** The last segment, when it starts with a character other than the
    separator, ends the joined key. *)
Lemma joined_suffix (pre : list string) (a : ascii) (s : string) :
  Ascii.eqb a "/" = false ->
  exists x, joined (pre ++ [String a s]) = x +:+ String a s.
Proof.
  intros Ha. destruct pre as [|p pre].
  - now exists "".
  - assert (H : joined ((p :: pre) ++ [String a s])
                = lstrip "/" (join p (pre ++ [String a s]))).
    { destruct pre; reflexivity. }
    rewrite H, join_snoc.
    destruct (join_step_suffix (join p pre) (String a s)) as (y & ->).
    exists (lstrip "/" y). now apply lstrip_app_stop.
Qed.

(** X6: switching randomisation on puts the digest and one separator in front
    of the key derived without it, when the root path is relative and the
    key without randomisation is not empty before the root image name is
    considered. *)
Lemma normalize_path_randomize_prepends (self : AwsStorage) (path : string) :
  (forall r, root_path self = Some r -> startswith r "/" = false) ->
  truthy (joined (plain_segments self path)) = true ->
  _normalize_path (set_randomize_keys true self) path
  = _generate_digest (plain_segments self path) +:+ "/"
    +:+ _normalize_path (set_randomize_keys false self) path.
Proof.
  intros Hroot Hj. unfold _normalize_path.
  rewrite (joined_randomized (set_randomize_keys true self) path eq_refl Hroot).
  rewrite (path_segments_plain (set_randomize_keys false self) path eq_refl).
  change (plain_segments (set_randomize_keys true self) path)
    with (plain_segments self path).
  change (plain_segments (set_randomize_keys false self) path)
    with (plain_segments self path).
  change (root_image_name (set_randomize_keys true self))
    with (root_image_name self).
  change (root_image_name (set_randomize_keys false self))
    with (root_image_name self).
  generalize (_generate_digest (plain_segments self path)) as d.
  generalize dependent (joined (plain_segments self path)).
  intros j Hj d.
  rewrite endswith_app. change ("/" +:+ j) with (String "/" j).
  rewrite endswith_cons. simpl (String.eqb (String "/" j) "").
  unfold truthy in Hj. apply negb_true_iff in Hj. rewrite Hj.
  destruct (endswith j "/"); [|reflexivity].
  now rewrite !app_assoc.
Qed.

(** C2: for the path [/images/cat.jpg] under the root path [prod], without
    randomisation, the key is [prod/images/cat.jpg], and
    [prod/images/cat.jpg/webp] with the WebP variant; and for every storage
    and path the join puts no two separators side by side: when neither the
    root path nor the stripped path holds a doubled separator, the joined
    key holds none, and neither does the final key when the root image name
    holds none and does not start with one. *)
Theorem normalize_path_single_separators :
  (forall rin ttl,
      _normalize_path (storage_with (Some "prod") false false rin ttl)
                      "/images/cat.jpg" = "prod/images/cat.jpg")
  /\ (forall rin ttl,
      _normalize_path (storage_with (Some "prod") false true rin ttl)
                      "/images/cat.jpg" = "prod/images/cat.jpg/webp")
  /\ (forall self path,
      (forall r, root_path self = Some r -> doubled "/" r = false) ->
      doubled "/" (lstrip "/" path) = false ->
      doubled "/" (joined (path_segments self path)) = false
      /\ (startswith (root_image_name self) "/" = false ->
          doubled "/" (root_image_name self) = false ->
          doubled "/" (_normalize_path self path) = false)).
Proof.
  split; [reflexivity|]. split; [reflexivity|].
  intros self path Hroot Hpath.
  assert (Hj : doubled "/" (joined (path_segments self path)) = false).
  { destruct (doubled "/" (joined (path_segments self path))) eqn:E;
      [|reflexivity].
    apply joined_doubled, Exists_exists in E as (seg & Hin & Hseg).
    apply list_elem_of_In, path_segments_elements in Hin.
    destruct Hin as [-> | [Hr | [-> | ->]]].
    - unfold _generate_digest in Hseg.
      rewrite contains_doubled in Hseg by apply hexdigest_no_slash.
      discriminate.
    - rewrite (Hroot _ Hr) in Hseg. discriminate.
    - congruence.
    - discriminate. }
  split; [exact Hj|].
  intros Hs Hd. unfold _normalize_path.
  destruct (endswith (joined (path_segments self path)) "/"); [|exact Hj].
  now rewrite doubled_app, Hj, Hd, Hs, andb_false_r.
Qed.

Lemma normalize_path_single_separators_witness :
  doubled "/" (_normalize_path (storage_with (Some "prod") false true "image.jpg" None)
                               "/images/cat.jpg") = false.
Proof.
  apply (proj2 (proj2 normalize_path_single_separators)).
  - intros r H. injection H as <-. reflexivity.
  - reflexivity.
  - reflexivity.
  - reflexivity.
Defined.

(** C4: when the root image name is not empty and does not end with a
    separator, the derived key never ends with a separator: a joined key
    that ends with one gets the root image name appended.  For the path
    [a/b/] without the WebP variant and the root image name [image.jpg]
    the key ends with [b/image.jpg]. *)
Theorem normalize_path_no_trailing_slash (self : AwsStorage) (path : string) :
  truthy (root_image_name self) = true ->
  endswith (root_image_name self) "/" = false ->
  endswith (_normalize_path self path) "/" = false
  /\ (endswith (joined (path_segments self path)) "/" = true ->
      _normalize_path self path
      = joined (path_segments self path) +:+ root_image_name self)
  /\ (is_auto_webp self = false ->
      root_image_name self = "image.jpg" ->
      endswith (_normalize_path self "a/b/") "b/image.jpg" = true).
Proof.
  intros Ht He. split; [|split].
  - unfold _normalize_path.
    destruct (endswith (joined (path_segments self path)) "/") eqn:E;
      [|exact E].
    rewrite endswith_app.
    unfold truthy in Ht. apply negb_true_iff in Ht. now rewrite Ht.
  - unfold _normalize_path. now intros ->.
  - intros Hw Hrin. unfold _normalize_path. rewrite Hrin.
    assert (Hx : exists x, joined (path_segments self "a/b/") = x +:+ "a/b/").
    { unfold path_segments, plain_segments. rewrite Hw.
      generalize _generate_digest as digest. intros digest.
      simpl (lstrip _ _).
      destruct (root_path self) as [r|]; [destruct (truthy r)|];
        destruct (_should_randomize_key self).
      - apply (joined_suffix [digest [r; "a/b/"]; r]). reflexivity.
      - apply (joined_suffix [r]). reflexivity.
      - apply (joined_suffix [digest ["a/b/"]]). reflexivity.
      - now exists "".
      - apply (joined_suffix [digest ["a/b/"]]). reflexivity.
      - now exists "". }
    destruct Hx as (x & ->).
    rewrite endswith_app. simpl (String.eqb "a/b/" "").
    replace (endswith "a/b/" "/") with true by reflexivity.
    replace ((x +:+ "a/b/") +:+ "image.jpg") with ((x +:+ "a/") +:+ "b/image.jpg")
      by now rewrite !app_assoc.
    apply endswith_refl_app.
Qed.

Lemma normalize_path_no_trailing_slash_witness :
  endswith (_normalize_path (storage_with (Some "prod") false false "image.jpg" None)
                            "a/b/") "/" = false
  /\ _normalize_path (storage_with (Some "prod") false false "image.jpg" None) "a/b/"
     = "prod/a/b/image.jpg".
Proof.
  destruct (normalize_path_no_trailing_slash
              (storage_with (Some "prod") false false "image.jpg" None) "a/b/"
              eq_refl eq_refl) as (H1 & H2 & _).
  split; [exact H1 | exact (H2 eq_refl)].
Defined.

(** C10: for a path made of separators only, with no root path, no WebP
    variant and no randomisation, the derived key is the empty string,
    whatever the root image name, and [get] asks the bucket for the empty
    key. *)
Theorem normalize_path_only_slashes (self : AwsStorage) (path : string) :
  opt_truthy (root_path self) = false ->
  is_auto_webp self = false ->
  _should_randomize_key self = false ->
  all_are "/" path = true ->
  _normalize_path self path = ""
  /\ get self path = storage_get "".
Proof.
  intros Hr Hw Hrand Hp.
  assert (H : _normalize_path self path = "").
  { unfold _normalize_path.
    rewrite (path_segments_plain self path Hrand),
      (plain_segments_no_root self path Hr), Hw, (lstrip_all_are _ _ Hp).
    reflexivity. }
  split; [exact H|]. unfold get. now rewrite H.
Qed.

Lemma normalize_path_only_slashes_witness :
  _normalize_path (storage_with None false false "image.jpg" None) "/" = ""
  /\ get (storage_with None false false "image.jpg" None) "/" = storage_get "".
Proof.
  apply normalize_path_only_slashes; reflexivity.
Defined.

End KeyDerivationClaims.

(** ** Facts on [posixpath.splitext] *)

Module SplitextFacts.
Import PyStr PyStrFacts PosixPath.

(** [rfind] finds the last occurrence: the string splits there, with no
    occurrence after it; or there is none. *)
Lemma rfind_aux_spec (c : ascii) (s : string) (i acc : Z) :
  (contains c s = false /\ rfind_aux c s i acc = acc)
  \/ (exists a b, s = a +:+ String c b /\ contains c b = false
        /\ rfind_aux c s i acc = i + Z.of_nat (String.length a)).
Proof.
  revert i acc. induction s as [|x s IH]; intros i acc; [now left|].
  simpl (rfind_aux _ _ _ _). simpl (contains _ _).
  destruct (Ascii.eqb x c) eqn:Hx.
  - apply Ascii.eqb_eq in Hx. subst x.
    destruct (IH (i + 1) i) as [[Hn Hr] | (a & b & Hs & Hb & Hr)].
    + right. exists "", s. simpl. rewrite Hr. repeat split; [exact Hn | lia].
    + right. exists (String c a), b. rewrite Hr. subst s. simpl.
      repeat split; [exact Hb | lia].
  - destruct (IH (i + 1) acc) as [[Hn Hr] | (a & b & Hs & Hb & Hr)].
    + left. now rewrite Hn, Hr.
    + right. exists (String x a), b. rewrite Hr. subst s. simpl.
      repeat split; [exact Hb | lia].
Qed.

Lemma rfind_aux_app (c : ascii) (a t : string) (i acc : Z) :
  rfind_aux c (a +:+ t) i acc
  = rfind_aux c t (i + Z.of_nat (String.length a)) (rfind_aux c a i acc).
Proof.
  revert i acc. induction a as [|x a IH]; intros i acc; simpl.
  - now rewrite Z.add_0_r.
  - rewrite IH. f_equal. lia.
Qed.

Lemma rfind_aux_lower (c : ascii) (s : string) (i acc : Z) :
  contains c s = true -> i <= rfind_aux c s i acc.
Proof.
  intros H. destruct (rfind_aux_spec c s i acc) as [[Hn _] | (a & b & _ & _ & ->)].
  - congruence.
  - lia.
Qed.

Lemma rfind_none (c : ascii) (s : string) :
  contains c s = false -> rfind s c = -1.
Proof.
  intros H. unfold rfind.
  destruct (rfind_aux_spec c s 0 (-1)) as [[_ Hr] | (a & b & -> & Hb & _)];
    [exact Hr|].
  rewrite contains_app in H. simpl in H. rewrite Ascii.eqb_refl in H.
  rewrite orb_true_r in H. discriminate.
Qed.

Lemma rfind_lower (c : ascii) (s : string) : -1 <= rfind s c.
Proof.
  unfold rfind.
  destruct (rfind_aux_spec c s 0 (-1)) as [[_ ->] | (a & b & _ & _ & ->)]; lia.
Qed.

Lemma substring_all (s : string) : String.substring 0 (String.length s) s = s.
Proof. induction s as [|x s IH]; simpl; [reflexivity | now rewrite IH]. Qed.

Lemma slice_to_app (a b : string) :
  slice_to (a +:+ b) (Z.of_nat (String.length a)) = a.
Proof.
  unfold slice_to. rewrite Nat2Z.id.
  induction a as [|x a IH]; simpl.
  - now destruct b.
  - now rewrite IH.
Qed.

Lemma slice_from_app (a b : string) :
  slice_from (a +:+ b) (Z.of_nat (String.length a)) = b.
Proof.
  unfold slice_from. rewrite Nat2Z.id.
  induction a as [|x a IH]; simpl.
  - rewrite Nat.sub_0_r. apply substring_all.
  - exact IH.
Qed.

(** What [splitext] returns puts the key together again, and the
    extension is empty or is the part from the last dot on, which holds no
    separator. *)
Lemma splitext_parts (p : string) :
  fst (splitext p) +:+ snd (splitext p) = p
  /\ (snd (splitext p) = ""
      \/ exists e, snd (splitext p) = String "." e
           /\ contains "." e = false /\ contains "/" e = false).
Proof.
  unfold splitext.
  destruct ((rfind p "." >? rfind p "/") && _) eqn:E; simpl;
    [|split; [apply app_nil_r | now left]].
  apply andb_prop in E as [E _]. apply Z.gtb_lt in E.
  pose proof (rfind_lower "/" p) as Hsep.
  unfold rfind in *.
  destruct (rfind_aux_spec "." p 0 (-1)) as [[_ Hr] | (a & e & Hp & He & Hr)];
    [lia|].
  rewrite Hr, Z.add_0_l. subst p.
  rewrite slice_to_app, slice_from_app. split; [reflexivity|].
  right. exists e. repeat split; [exact He|].
  destruct (contains "/" e) eqn:Hc; [|reflexivity].
  rewrite rfind_aux_app in E. simpl (rfind_aux _ (String _ _) _ _) in E.
  pose proof (rfind_aux_lower "/" e (0 + Z.of_nat (String.length a) + 1)
                (rfind_aux "/" a 0 (-1)) Hc).
  lia.
Qed.

(** A key without a dot has no extension. *)
Lemma splitext_no_dot (p : string) :
  contains "." p = false -> splitext p = (p, "").
Proof.
  intros H. unfold splitext. rewrite (rfind_none _ _ H).
  pose proof (rfind_lower "/" p).
  replace (-1 >? rfind p "/") with false; [reflexivity|].
  symmetry. rewrite Z.gtb_ltb. apply Z.ltb_ge. lia.
Qed.

Lemma endswith_split (c : ascii) (s : string) :
  endswith s (String c "") = true -> exists d, s = d +:+ String c "".
Proof.
  induction s as [|x s IH]; [discriminate|].
  rewrite endswith_cons. destruct (String.eqb s "") eqn:Hs.
  - apply String.eqb_eq in Hs. subst s. intros H.
    apply Ascii.eqb_eq in H. subst x. now exists "".
  - intros H. destruct (IH H) as (d & ->). now exists (String x d).
Qed.

(** The index after the last separator of a directory prefix is its
    length. *)
Lemma rfind_dir (dir : string) :
  dir = "" \/ endswith dir "/" = true ->
  rfind dir "/" + 1 = Z.of_nat (String.length dir).
Proof.
  intros [-> | H]; [reflexivity|].
  apply endswith_split in H as (d & ->).
  unfold rfind. rewrite rfind_aux_app, length_app. simpl. lia.
Qed.

Lemma slice1_app (a t : string) (x : ascii) :
  slice1 (a +:+ String x t) (Z.of_nat (String.length a)) = String x "".
Proof.
  unfold slice1. rewrite Nat2Z.id.
  induction a as [|y a IH]; simpl; [now destruct t | exact IH].
Qed.

(** The loop of [_splitext] looks for a character other than the dot in
    the file name. *)
Lemma has_name_before_dot_spec (name dir rest : string) :
  has_name_before_dot (dir +:+ name +:+ rest) (Z.of_nat (String.length dir))
                      (String.length name)
  = negb (all_are "." name).
Proof.
  revert dir. induction name as [|x name IH]; intros dir; [reflexivity|].
  simpl (String.length _). simpl (has_name_before_dot _ _ _).
  simpl (String x name +:+ rest). rewrite slice1_app.
  unfold extsep. simpl (String.eqb _ _). simpl (all_are _ _).
  destruct (Ascii.eqb x ".") eqn:Hx; simpl; [|reflexivity].
  rewrite <- (IH (dir +:+ String x "")).
  rewrite length_app, app_assoc. simpl.
  do 2 f_equal. lia.
Qed.

(** A file name that is not made of dots only, followed by a dot and a
    suffix without dot or separator, loses exactly that suffix. *)
Lemma splitext_splits (dir name e : string) :
  dir = "" \/ endswith dir "/" = true ->
  contains "/" name = false ->
  all_are "." name = false ->
  contains "." e = false ->
  contains "/" e = false ->
  splitext (dir +:+ name +:+ String "." e) = (dir +:+ name, String "." e).
Proof.
  intros Hdir Hname Hdots He Hes.
  assert (Hsep : rfind (dir +:+ name +:+ String "." e) "/" + 1
                 = Z.of_nat (String.length dir)).
  { rewrite <- (rfind_dir dir Hdir). unfold rfind. rewrite rfind_aux_app.
    f_equal.
    destruct (rfind_aux_spec "/" (name +:+ String "." e)
                (0 + Z.of_nat (String.length dir)) (rfind_aux "/" dir 0 (-1)))
      as [[_ Hr] | (a & b & Hs & _ & _)]; [exact Hr|].
    assert (Hc : contains "/" (name +:+ String "." e) = false).
    { rewrite contains_app, Hname. simpl. exact Hes. }
    rewrite Hs, contains_app in Hc. simpl in Hc.
    rewrite orb_true_r in Hc. discriminate. }
  assert (Hdot : rfind (dir +:+ name +:+ String "." e) "."
                 = Z.of_nat (String.length (dir +:+ name))).
  { rewrite <- app_assoc. unfold rfind. rewrite rfind_aux_app. simpl.
    destruct (rfind_aux_spec "." e (0 + Z.of_nat (String.length (dir +:+ name)) + 1)
                (0 + Z.of_nat (String.length (dir +:+ name))))
      as [[_ Hr] | (a & b & Hs & _ & _)]; [rewrite Hr; lia|].
    rewrite Hs, contains_app in He. simpl in He.
    rewrite orb_true_r in He. discriminate. }
  unfold splitext. rewrite Hsep, Hdot.
  replace (Z.to_nat (Z.of_nat (String.length (dir +:+ name))
                     - Z.of_nat (String.length dir)))
    with (String.length name) by (rewrite length_app; lia).
  rewrite has_name_before_dot_spec, Hdots.
  replace (Z.of_nat (String.length (dir +:+ name))
           >? rfind (dir +:+ name +:+ String "." e) "/") with true.
  2:{ symmetry. apply Z.gtb_lt. rewrite length_app. lia. }
  simpl (true && negb false).
  rewrite <- app_assoc. now rewrite slice_to_app, slice_from_app.
Qed.

End SplitextFacts.

(** ** Randomised keys *)

(** Under a relative root path the randomised key starts with the digest of
    the segments that follow it. *)
Example randomized_key_relative_root :
  _normalize_path (storage_with (Some "prod") true false "image.jpg" None)
                  "/images/cat.jpg"
  = "1497df0d3b5c7c06307b03712112e6cd4db6f71c/prod/images/cat.jpg"
  /\ _generate_digest ["prod"; "images/cat.jpg"]
     = "1497df0d3b5c7c06307b03712112e6cd4db6f71c".
Proof. split; vm_compute; reflexivity. Qed.

(** For a path of separators only, without root path and WebP variant,
    randomisation also brings the root image name in. *)
Example randomized_key_empty_path :
  _normalize_path (storage_with None false false "image.jpg" None) "/" = ""
  /\ _normalize_path (storage_with None true false "image.jpg" None) "/"
     = "da39a3ee5e6b4b0d3255bfef95601890afd80709/image.jpg".
Proof. split; vm_compute; reflexivity. Qed.

(** C3: with the root path [/prod] and randomisation switched on, the
    digest is inserted in front of the segment list but is missing from the
    key: [posixpath.join] starts again at the absolute root path.  The key
    of [x.jpg] is [prod/x.jpg], its first field is [prod], and it is the
    key derived without randomisation. *)
Theorem normalize_path_absolute_root_loses_digest :
  path_segments (storage_with (Some "/prod") true false "image.jpg" None) "x.jpg"
  = ["d000f9b322c3728d3530f008f7637c7406bac5fa"; "/prod"; "x.jpg"]
  /\ _generate_digest ["/prod"; "x.jpg"] = "d000f9b322c3728d3530f008f7637c7406bac5fa"
  /\ _normalize_path (storage_with (Some "/prod") true false "image.jpg" None) "x.jpg"
     = "prod/x.jpg"
  /\ PyStr.first_field "/"
       (_normalize_path (storage_with (Some "/prod") true false "image.jpg" None) "x.jpg")
     = "prod"
  /\ _normalize_path (storage_with (Some "/prod") false false "image.jpg" None) "x.jpg"
     = "prod/x.jpg".
Proof. repeat split; vm_compute; reflexivity. Qed.

(** ** Sidecar keys *)

Section Sidecar.
Import PyStr PyStrFacts PosixPath SplitextFacts.

Variable detector_data : Type.
Variable loads : string -> detector_data.
Variable dumps : detector_data -> string.

(** C9: the sidecar keys are the primary key without its extension,
    followed by [.txt] for the crypto key and by [.detectors.txt] for the
    detector data.  The extension is what [splitext] splits off: nothing,
    or the part from the last dot on, which holds no separator; a file name
    that is not made of dots only loses it; a key without a dot is kept
    whole.  The four sidecar methods address the bucket with these keys. *)
Theorem sidecar_paths :
  crypto_path "a/b.jpg" = "a/b.txt"
  /\ detectors_path "a/b.jpg" = "a/b.detectors.txt"
  /\ crypto_path "a/b" = "a/b.txt"
  /\ (forall key,
        exists base ext,
          key = base +:+ ext
          /\ crypto_path key = base +:+ ".txt"
          /\ detectors_path key = base +:+ ".detectors.txt"
          /\ (ext = ""
              \/ exists e, ext = String "." e
                   /\ contains "." e = false /\ contains "/" e = false)
          /\ (contains "." key = false -> base = key))
  /\ (forall dir name e,
        dir = "" \/ endswith dir "/" = true ->
        contains "/" name = false ->
        all_are "." name = false ->
        contains "." e = false ->
        contains "/" e = false ->
        crypto_path (dir +:+ name +:+ String "." e) = dir +:+ name +:+ ".txt"
        /\ detectors_path (dir +:+ name +:+ String "." e)
           = dir +:+ name +:+ ".detectors.txt")
  /\ (forall self now path data,
        get_crypto self now path
        = AwaitGet (crypto_path (_normalize_path self path))
            (fun file_key =>
               if unusable self now file_key then Return None
               else Return (file_key ≫= Body))
        /\ get_detector_data detector_data loads self now path
           = AwaitGet (detectors_path (_normalize_path self path))
               (fun file_key =>
                  if unusable self now file_key then Return None
                  else
                    match file_key ≫= Body with
                    | None => Return None
                    | Some body =>
                        match read body with
                        | inl e => Raise (AttributeErr e)
                        | inr content => Return (Some (loads content))
                        end
                    end)
        /\ (exists attrs,
              put_detector_data detector_data dumps self path data
              = AwaitPut (detectors_path (_normalize_path self path))
                         (dumps data) attrs Return)
        /\ (forall key,
              STORES_CRYPTO_KEY_FOR_EACH_IMAGE (config (context self)) = true ->
              security_key (server (context self)) = Some key ->
              truthy key = true ->
              exists attrs,
                put_crypto self path
                = AwaitPut (crypto_path (_normalize_path self path)) key attrs
                    (fun _ => Return (Some (crypto_path (_normalize_path self path)))))).
Proof.
  split; [reflexivity|]. split; [reflexivity|]. split; [reflexivity|].
  split; [|split].
  - intros key. exists (fst (splitext key)), (snd (splitext key)).
    destruct (splitext_parts key) as [H1 H2].
    repeat split; auto.
    intros H. now rewrite (splitext_no_dot key H).
  - intros dir name e Hdir Hname Hdots He Hes.
    unfold crypto_path, detectors_path.
    rewrite (splitext_splits dir name e Hdir Hname Hdots He Hes). simpl.
    now rewrite !app_assoc.
  - intros self now path data. split; [|split; [|split]].
    + unfold get_crypto, storage_get. simpl.
      f_equal.
    + unfold get_detector_data, storage_get. simpl. f_equal.
    + unfold put_detector_data, set_, storage_put. eauto.
    + intros key Hs Hk Ht. unfold put_crypto, set_, storage_put.
      rewrite Hs, Hk, Ht. simpl. eauto.
Qed.

End Sidecar.

Lemma sidecar_paths_witness :
  crypto_path ("a/" +:+ "b" +:+ String "." "jpg") = "a/" +:+ "b" +:+ ".txt"
  /\ detectors_path ("a/" +:+ "b" +:+ String "." "jpg")
     = "a/" +:+ "b" +:+ ".detectors.txt".
Proof.
  apply (proj1 (proj2 (proj2 (proj2 (proj2
           (sidecar_paths string (fun s => s) (fun s => s))))))).
  - right. reflexivity.
  - reflexivity.
  - reflexivity.
  - reflexivity.
  - reflexivity.
Defined.

(** ** The facade *)

Section FacadeClaims.

Context {S : Type}.
Variable bucket : Bucket S.
Variable self : AwsStorage.
Variable path : string.
Variable s : S.

(** [exists] makes one [get] on the derived key, and answers whether the
    descriptor is a non-empty mapping whose error, as [_get_error] reports
    it, has a false truth value. *)
Lemma exists_run :
  run bucket (exists_ self path) s
  = mk_outcome
      (inl match bucket_get bucket s (_normalize_path self path) with
           | None => false
           | Some k =>
               response_truthy (Some k) && negb (error_truthy (_get_error k))
           end)
      s [CallGet (_normalize_path self path)].
Proof.
  unfold run, exists_, storage_get. simpl.
  destruct (bucket_get bucket s (_normalize_path self path)) as [k|];
    [|reflexivity].
  unfold response_truthy.
  destruct (negb (response_len k =? 0)%nat), (error_truthy (_get_error k));
    reflexivity.
Qed.

(** X15: [exists] does not read the clock or the horizon: a descriptor with a
    time stamp and no error entry exists, however old. *)
Lemma exists_ignores_expiry (k : Response) (t : DateTime.datetime) :
  bucket_get bucket s (_normalize_path self path) = Some k ->
  Error k = None ->
  LastModified k = Some t ->
  result (run bucket (exists_ self path) s) = inl true.
Proof.
  intros Hk He Ht. rewrite exists_run, Hk. simpl.
  unfold _get_error, response_len. rewrite He, Ht. simpl.
  replace (entry (Body k) + 1 + 0 + other_entries k =? 0)%nat with false
    by (symmetry; apply Nat.eqb_neq; lia).
  reflexivity.
Qed.

(** [exists] answers false for nothing, for the empty mapping, and for an
    error entry whose message, or whose mapping when it has no message, is
    not empty. *)
Lemma exists_false_on_error (k : Response) (e : error_mapping) :
  bucket_get bucket s (_normalize_path self path) = Some k ->
  Error k = Some e ->
  (exists m, e !! "Message" = Some (Some m) /\ m <> "")
  \/ (e !! "Message" = None /\ e <> ∅) ->
  result (run bucket (exists_ self path) s) = inl false.
Proof.
  intros Hk He Hm. rewrite exists_run, Hk. simpl.
  unfold _get_error. rewrite He.
  destruct Hm as [(m & -> & Hm) | [-> Hm]]; simpl.
  - apply String.eqb_neq in Hm. unfold PyStr.truthy. rewrite Hm. simpl.
    now rewrite andb_false_r.
  - replace (size e =? 0)%nat with false.
    + simpl. now rewrite andb_false_r.
    + symmetry. apply Nat.eqb_neq. intros H0. now apply map_size_empty_iff in H0.
Qed.

(** C5: [put_crypto] answers [None] without any call on the bucket when the
    per-image crypto key policy is off, whether or not the server has a
    security key; when the policy is on and the security key is missing or
    empty it raises a [RuntimeError], again before any call on the bucket:
    the state of the bucket is unchanged and the list of calls is empty. *)
Theorem put_crypto_gating :
  (STORES_CRYPTO_KEY_FOR_EACH_IMAGE (config (context self)) = false ->
   put_crypto self path = Return None
   /\ run bucket (put_crypto self path) s = mk_outcome (inl None) s [])
  /\ (STORES_CRYPTO_KEY_FOR_EACH_IMAGE (config (context self)) = true ->
      opt_truthy (security_key (server (context self))) = false ->
      exists msg,
        put_crypto self path = Raise (RuntimeError msg)
        /\ run bucket (put_crypto self path) s
           = mk_outcome (inr (RuntimeError msg)) s []).
Proof.
  split.
  - intros H. unfold put_crypto. rewrite H. split; reflexivity.
  - intros H Hk. unfold put_crypto. rewrite H. simpl.
    destruct (security_key (server (context self))) as [key|]; simpl in Hk.
    + rewrite Hk. simpl. eexists. split; reflexivity.
    + eexists. split; reflexivity.
Qed.

(** X26: with the policy on and a security key, [put_crypto] makes one [put] of
    the key at the crypto sidecar and answers the sidecar key. *)
Lemma put_crypto_stores (key : string) :
  STORES_CRYPTO_KEY_FOR_EACH_IMAGE (config (context self)) = true ->
  security_key (server (context self)) = Some key ->
  PyStr.truthy key = true ->
  exists attrs,
    result (run bucket (put_crypto self path) s)
    = inl (Some (crypto_path (_normalize_path self path)))
    /\ calls (run bucket (put_crypto self path) s)
       = [CallPut (crypto_path (_normalize_path self path)) key attrs].
Proof.
  intros H Hk Ht. unfold put_crypto, set_, storage_put, run.
  rewrite H, Hk, Ht. simpl.
  eexists.
  destruct (bucket_put bucket s _ key _) as [r s'].
  split; reflexivity.
Qed.

End FacadeClaims.

Lemma put_crypto_gating_witness :
  run (mem_bucket 0) (put_crypto (storage_with None false false "image.jpg" None) "/a.jpg") ∅
  = mk_outcome (inl None) ∅ []
  /\ exists msg,
       run (mem_bucket 0) (put_crypto (crypto_storage None) "/a.jpg") ∅
       = mk_outcome (inr (RuntimeError msg)) ∅ [].
Proof.
  split.
  - apply (proj1 (put_crypto_gating (mem_bucket 0)
                    (storage_with None false false "image.jpg" None) "/a.jpg" ∅)).
    reflexivity.
  - destruct (proj2 (put_crypto_gating (mem_bucket 0) (crypto_storage None) "/a.jpg" ∅)
                eq_refl eq_refl) as (msg & _ & H).
    exists msg. exact H.
Defined.

(** C6: a descriptor that carries an error entry whose message is the empty
    string makes [exists] answer true, while [_get_error] reports an error
    for it and [is_expired] counts it as expired: [exists] tests the truth
    value of what [_get_error] returns, where [is_expired] tests whether it
    is [None]. *)
Theorem exists_true_on_error_with_empty_message :
  result (run (mem_bucket 0)
              (exists_ (storage_with None false false "image.jpg" (Some 60)) "x.jpg")
              {["x.jpg" := error_response {["Code" := Some "InternalError"; "Message" := Some ""]}]})
  = inl true
  /\ Error (error_response {["Code" := Some "InternalError"; "Message" := Some ""]}) <> None
  /\ _get_error (error_response {["Code" := Some "InternalError"; "Message" := Some ""]})
     = Some (ErrMessage "")
  /\ is_expired (storage_with None false false "image.jpg" (Some 60)) 0
       (Some (error_response {["Code" := Some "InternalError"; "Message" := Some ""]}))
     = true.
Proof. repeat split; try discriminate; vm_compute; reflexivity. Qed.

(** A descriptor older than the horizon exists although it is expired. *)
Example exists_on_expired_object :
  result (run (mem_bucket 0)
              (exists_ (storage_with None false false "image.jpg" (Some 60)) "x.jpg")
              {["x.jpg" := object_at 0]})
  = inl true
  /\ is_expired (storage_with None false false "image.jpg" (Some 60))
                3600000000 (Some (object_at 0)) = true.
Proof. split; vm_compute; reflexivity. Qed.

(** * Further properties of the storage *)

(** ** Shape of the derived key *)

Section KeyShape.
Import PyStr PyStrFacts PosixPath PosixPathFacts SHA1Facts.

Variable self : AwsStorage.
Variable path : string.

Lemma lstrip_lstrip (c : ascii) (s : string) : lstrip c (lstrip c s) = lstrip c s.
Proof. apply lstrip_id, lstrip_not_startswith. Qed.

Lemma joined_not_absolute :
  startswith (joined (path_segments self path)) "/" = false.
Proof.
  unfold path_segments.
  destruct (plain_segments_shape self path) as [H | [H | (r & _ & _ & [H | H])]];
    rewrite H; destruct (_should_randomize_key self);
    try apply lstrip_not_startswith.
Qed.

Lemma endswith_truthy (s : string) (c : ascii) :
  endswith s (String c "") = true -> String.eqb s "" = false.
Proof. now destruct s. Qed.

(** X1: the derived key never starts with a separator, whatever the path
    and the policy, a root path with leading separators included. *)
Theorem normalize_path_not_absolute :
  startswith (_normalize_path self path) "/" = false.
Proof.
  unfold _normalize_path.
  destruct (endswith (joined (path_segments self path)) "/") eqn:E.
  - rewrite startswith_app, (endswith_truthy _ _ E). apply joined_not_absolute.
  - apply joined_not_absolute.
Qed.

(** X2: leading separators of the path do not count: the path with its
    leading separators removed, and the path with one more in front, derive
    the key of the path itself. *)
Theorem normalize_path_leading_slashes :
  _normalize_path self (lstrip "/" path) = _normalize_path self path
  /\ _normalize_path self (String "/" path) = _normalize_path self path.
Proof.
  split.
  - unfold _normalize_path, path_segments, plain_segments.
    now rewrite lstrip_lstrip.
  - reflexivity.
Qed.

Lemma join_prefix (l : list string) (a : string) :
  Forall (fun b => startswith b "/" = false) l ->
  exists rest, join a l = a +:+ rest.
Proof.
  intros Hl. revert a. induction Hl as [|b l Hb Hl IH]; intros a.
  - exists "". now rewrite app_nil_r.
  - rewrite join_cons. destruct (IH (join_step a b)) as (rest & ->).
    rewrite (join_step_relative _ _ Hb).
    destruct (negb (truthy a) || endswith a "/").
    + exists (b +:+ rest). now rewrite app_assoc.
    + exists ("/" +:+ b +:+ rest). now rewrite !app_assoc.
Qed.

(** X3: under a root path that is not empty and does not start with a
    separator, every key lies under the root path; with randomisation the
    digest and one separator come before it. *)
Theorem normalize_path_under_root (r : string) :
  root_path self = Some r ->
  truthy r = true ->
  startswith r "/" = false ->
  exists rest,
    _normalize_path self path
    = (if _should_randomize_key self
       then _generate_digest (plain_segments self path) +:+ "/"
       else "") +:+ r +:+ rest.
Proof.
  intros Hr Ht Hrel.
  assert (Hroot : forall r', root_path self = Some r' -> startswith r' "/" = false)
    by (intros r' H; congruence).
  pose proof (plain_segments_relative self path Hroot) as Hp.
  assert (Hj : exists rest, joined (plain_segments self path) = r +:+ rest).
  { assert (Hs : exists tl, plain_segments self path = r :: tl).
    { unfold plain_segments. rewrite Hr, Ht.
      destruct (is_auto_webp self); simpl; eauto. }
    destruct Hs as (tl & Hs). rewrite Hs in *.
    rewrite (joined_relative _ _ Hp).
    apply join_prefix. now inversion Hp. }
  destruct Hj as (rest & Hj).
  unfold _normalize_path.
  destruct (_should_randomize_key self) eqn:Hrand.
  - rewrite (joined_randomized self path Hrand Hroot), Hj.
    destruct (endswith _ "/").
    + exists (rest +:+ root_image_name self). now rewrite !app_assoc.
    + exists rest. now rewrite !app_assoc.
  - rewrite (path_segments_plain self path Hrand), Hj.
    destruct (endswith _ "/").
    + exists (rest +:+ root_image_name self). now rewrite !app_assoc.
    + now exists rest.
Qed.

(** X4: with the WebP variant the key ends with [webp] and the root image
    name is never appended, also for a path that ends with a separator. *)
Theorem normalize_path_webp_last :
  is_auto_webp self = true ->
  endswith (_normalize_path self path) "webp" = true
  /\ _normalize_path self path = joined (path_segments self path).
Proof.
  intros Hw.
  assert (Hx : exists x, joined (path_segments self path) = x +:+ "webp").
  { unfold path_segments, plain_segments. rewrite Hw.
    generalize _generate_digest as digest. intros digest.
    destruct (root_path self) as [r|]; [destruct (truthy r)|];
      destruct (_should_randomize_key self).
    - apply (joined_suffix [digest [r; lstrip "/" path; "webp"]; r; lstrip "/" path]).
      reflexivity.
    - apply (joined_suffix [r; lstrip "/" path]). reflexivity.
    - apply (joined_suffix [digest [lstrip "/" path; "webp"]; lstrip "/" path]).
      reflexivity.
    - apply (joined_suffix [lstrip "/" path]). reflexivity.
    - apply (joined_suffix [digest [lstrip "/" path; "webp"]; lstrip "/" path]).
      reflexivity.
    - apply (joined_suffix [lstrip "/" path]). reflexivity. }
  destruct Hx as (x & Hx). unfold _normalize_path. rewrite Hx.
  rewrite endswith_app. simpl (String.eqb "webp" "").
  replace (endswith "webp" "/") with false by reflexivity.
  split; [apply endswith_refl_app | reflexivity].
Qed.

End KeyShape.

Lemma normalize_path_under_root_witness :
  exists rest,
    _normalize_path (storage_with (Some "prod") false false "image.jpg" None) "/a/b.jpg"
    = "" +:+ "prod" +:+ rest.
Proof.
  apply (normalize_path_under_root
           (storage_with (Some "prod") false false "image.jpg" None) "/a/b.jpg" "prod");
    reflexivity.
Defined.

Lemma normalize_path_webp_last_witness :
  PyStr.endswith
    (_normalize_path (storage_with None false true "image.jpg" None) "a/b/") "webp" = true
  /\ _normalize_path (storage_with None false true "image.jpg" None) "a/b/"
     = joined (path_segments (storage_with None false true "image.jpg" None) "a/b/").
Proof.
  apply normalize_path_webp_last. reflexivity.
Defined.

Lemma normalize_path_digest_first_witness :
  PyStr.first_field "/"
    (_normalize_path (storage_with (Some "prod") true false "image.jpg" None)
                     "/images/cat.jpg")
  = _generate_digest
      (plain_segments (storage_with (Some "prod") true false "image.jpg" None)
                      "/images/cat.jpg").
Proof.
  apply normalize_path_digest_first.
  - reflexivity.
  - intros r H. injection H as <-. reflexivity.
Defined.

Lemma normalize_path_randomize_prepends_witness :
  _normalize_path
    (set_randomize_keys true (storage_with (Some "prod") false false "image.jpg" None))
    "/images/cat.jpg"
  = _generate_digest
      (plain_segments (storage_with (Some "prod") false false "image.jpg" None)
                      "/images/cat.jpg")
    +:+ "/"
    +:+ _normalize_path
          (set_randomize_keys false (storage_with (Some "prod") false false "image.jpg" None))
          "/images/cat.jpg".
Proof.
  apply normalize_path_randomize_prepends.
  - intros r H. injection H as <-. reflexivity.
  - reflexivity.
Defined.

(** ** The digest *)

Section Digest.
Import PyStr PyStrFacts SHA1 SHA1Facts.

Lemma hexdigit_is_hex (n : Z) : is_hex_digit (hexdigit n) = true.
Proof.
  unfold hexdigit.
  destruct (n mod 16) as [|p|p]; try reflexivity.
  do 4 (destruct p as [p|p|]; try reflexivity).
Qed.

Lemma hex_all_hex (n : nat) (x : Z) : all_hex (hex n x) = true.
Proof.
  induction n as [|n IH]; simpl; [reflexivity|].
  now rewrite hexdigit_is_hex, IH.
Qed.

Lemma all_hex_app (a b : string) : all_hex (a +:+ b) = all_hex a && all_hex b.
Proof.
  induction a as [|x a IH]; simpl; [reflexivity|].
  now rewrite IH, andb_assoc.
Qed.

(** X7: the digest of any segment list is 40 characters long, each a
    lower-case hexadecimal digit. *)
Theorem generate_digest_shape (segments : list string) :
  String.length (_generate_digest segments) = 40%nat
  /\ all_hex (_generate_digest segments) = true.
Proof.
  split; [apply hexdigest_length|].
  unfold _generate_digest, hexdigest, hex_state.
  now rewrite !all_hex_app, !hex_all_hex.
Qed.

Lemma str_join_merge (a b : string) (l : list string) :
  str_join "." (a :: b :: l) = str_join "." ((a +:+ "." +:+ b) :: l).
Proof.
  destruct l as [|c l]; [reflexivity|].
  change (str_join "." (a :: b :: c :: l))
    with (a +:+ "." +:+ b +:+ "." +:+ str_join "." (c :: l)).
  change (str_join "." ((a +:+ "." +:+ b) :: c :: l))
    with ((a +:+ "." +:+ b) +:+ "." +:+ str_join "." (c :: l)).
  now rewrite !app_assoc.
Qed.

(** X8: the digest does not see where one segment ends and the next
    begins: two segments give the digest of the one segment made of them
    with a dot in between. *)
Theorem generate_digest_merges_segments (a b : string) (l : list string) :
  _generate_digest (a :: b :: l) = _generate_digest ((a +:+ "." +:+ b) :: l).
Proof. unfold _generate_digest. now rewrite str_join_merge. Qed.

End Digest.

(** ** More on the expiry policy *)

Section ExpiryClock.
Import DateTime.

Variable self : AwsStorage.

Lemma seconds_shift_days (us k : Z) :
  seconds (of_microseconds (us + k * us_per_day)) = seconds (of_microseconds us).
Proof.
  rewrite !DateTimeFacts.seconds_of_microseconds.
  unfold us_per_day.
  replace (us + k * (seconds_per_day * us_per_second))
    with (us + (k * seconds_per_day) * us_per_second) by ring.
  rewrite Z.div_add by (unfold us_per_second; lia).
  apply Z_mod_plus_full.
Qed.

(** X12: the answer of [is_expired] is the same a whole number of days
    earlier or later, for every descriptor and horizon. *)
Theorem is_expired_periodic (now k : Z) (key : option Response) :
  is_expired self (now + k * us_per_day) key = is_expired self now key.
Proof.
  destruct key as [r|]; [|reflexivity].
  unfold is_expired.
  destruct (response_truthy (Some r) && bool_decide (_get_error r = None));
    [|reflexivity].
  destruct (LastModified r) as [t|]; [|reflexivity].
  destruct (storage_expiration_seconds self) as [e|]; [|reflexivity].
  destruct (e =? 0); [reflexivity|].
  cbv zeta. unfold sub.
  replace (now + k * us_per_day - t) with (now - t + k * us_per_day) by ring.
  now rewrite seconds_shift_days.
Qed.

(** X13: for a time stamp that lies ahead of the clock by up to a day the
    elapsed seconds are counted from a day before the stamp: the object is
    expired when a day less the whole seconds ahead exceeds the horizon. *)
Theorem is_expired_future_stamp (now : datetime) (k : Response) (t : datetime) (ttl : Z) :
  Error k = None ->
  LastModified k = Some t ->
  storage_expiration_seconds self = Some ttl ->
  0 < ttl ->
  - us_per_day <= now - t < 0 ->
  is_expired self now (Some k)
  = (seconds_per_day + (now - t) / us_per_second >? ttl).
Proof.
  intros He Ht Hs Hpos Hage.
  rewrite (is_expired_valid self now k t He Ht), Hs.
  replace (ttl =? 0) with false by (symmetry; apply Z.eqb_neq; lia).
  f_equal.
  unfold us_per_day, seconds_per_day, us_per_second in *.
  assert (Hq : -86400 <= (now - t) / 1000000 < 0).
  { split.
    - apply Z.div_le_lower_bound; lia.
    - apply Z.div_lt_upper_bound; lia. }
  rewrite <- (Z_mod_plus_full ((now - t) / 1000000) 1 86400).
  rewrite Z.mod_small by lia. ring.
Qed.

End ExpiryClock.

Lemma is_expired_future_stamp_witness :
  is_expired (storage_with None false false "image.jpg" (Some 3600))
             0 (Some (object_at 1000000))
  = (DateTime.seconds_per_day + (0 - 1000000) / DateTime.us_per_second >? 3600).
Proof.
  apply (is_expired_future_stamp _ 0 (object_at 1000000) 1000000 3600);
    try reflexivity.
  split; [discriminate | reflexivity].
Defined.

Lemma is_expired_within_a_day_witness :
  is_expired (storage_with None false false "image.jpg" (Some 60))
             61000000 (Some (object_at 0))
  = (DateTime.whole_seconds (DateTime.sub 61000000 0) >? 60).
Proof.
  apply (is_expired_within_a_day _ 61000000 (object_at 0) 0 60);
    try reflexivity.
  split; [discriminate | reflexivity].
Defined.

Lemma is_expired_modulo_a_day_witness :
  is_expired (storage_with None false false "image.jpg" (Some 60))
             (90000 * 1000000) (Some (object_at 0))
  = (DateTime.whole_seconds (DateTime.sub (90000 * 1000000) 0)
       mod DateTime.seconds_per_day >? 60).
Proof.
  apply (is_expired_modulo_a_day _ (90000 * 1000000) (object_at 0) 0 60);
    reflexivity.
Defined.

Lemma is_expired_long_horizon_witness :
  is_expired (storage_with None false false "image.jpg" (Some 86400))
             (1000 * DateTime.us_per_day) (Some (object_at 0)) = false.
Proof.
  apply (is_expired_long_horizon _ (1000 * DateTime.us_per_day) (object_at 0) 0 86400);
    try reflexivity.
  discriminate.
Defined.

(** ** The read paths *)

Section ReadPaths.

Context {S : Type}.
Variable bucket : Bucket S.
Variable detector_data : Type.
Variable loads : string -> detector_data.
Variable self : AwsStorage.
Variable now : DateTime.datetime.
Variable s : S.

(** The test shared by the read paths is decided by [is_expired] alone:
    its first two parts are cases in which [is_expired] answers true. *)
Lemma unusable_is_expired (file_key : option Response) :
  unusable self now file_key = is_expired self now file_key.
Proof.
  destruct file_key as [k|]; [|reflexivity].
  unfold unusable.
  destruct (response_truthy (Some k)) eqn:Ht.
  - destruct (_get_error k) as [v|] eqn:He; [|reflexivity].
    unfold is_expired. rewrite Ht, He. simpl (_ && _).
    now rewrite orb_true_r.
  - unfold is_expired. now rewrite Ht.
Qed.

Lemma run_get_if {A : Type} (key : string) (c : option Response -> bool)
    (x : A) (g : option Response -> A) :
  run bucket (AwaitGet key (fun file_key =>
                if c file_key then Return x else Return (g file_key))) s
  = mk_outcome (inl (if c (bucket_get bucket s key) then x
                     else g (bucket_get bucket s key)))
               s [CallGet key].
Proof.
  unfold run. simpl. now destruct (c (bucket_get bucket s key)).
Qed.

(** X14: [exists] makes one [get] on the derived key and changes nothing;
    it answers false exactly when the bucket gave nothing, an empty
    mapping, or an error entry whose message (or whose mapping, when it has
    no message) is not empty. *)
Theorem exists_false_iff (path : string) :
  final (run bucket (exists_ self path) s) = s
  /\ calls (run bucket (exists_ self path) s) = [CallGet (_normalize_path self path)]
  /\ (result (run bucket (exists_ self path) s) = inl false
      <-> (bucket_get bucket s (_normalize_path self path) = None
           \/ exists k, bucket_get bucket s (_normalize_path self path) = Some k
                /\ (response_len k = 0%nat
                    \/ exists e, Error k = Some e
                         /\ match e !! "Message" with
                            | Some (Some m) => m <> ""
                            | Some None => False
                            | None => e <> ∅
                            end))).
Proof.
  rewrite exists_run. simpl. split; [reflexivity|]. split; [reflexivity|].
  destruct (bucket_get bucket s (_normalize_path self path)) as [k|];
    [|split; auto].
  unfold response_truthy, _get_error.
  split.
  - intros H. right. exists k. split; [reflexivity|].
    injection H as H. apply andb_false_iff in H as [H | H].
    + left. apply negb_false_iff in H. now apply Nat.eqb_eq.
    + right. apply negb_false_iff in H.
      destruct (Error k) as [e|]; [|discriminate].
      exists e. split; [reflexivity|].
      destruct (e !! "Message") as [[m|]|]; simpl in H.
      * unfold PyStr.truthy in H. apply negb_true_iff in H.
        now apply String.eqb_neq.
      * discriminate.
      * apply negb_true_iff, Nat.eqb_neq in H. intros ->.
        now rewrite map_size_empty in H.
  - intros [H | (k' & Hk & [H | (e & He & H)])]; [discriminate| |];
      injection Hk as <-.
    + rewrite H. reflexivity.
    + rewrite He. destruct (e !! "Message") as [[m|]|]; simpl.
      * apply String.eqb_neq in H. unfold PyStr.truthy. rewrite H. simpl.
        now rewrite andb_false_r.
      * contradiction.
      * replace (size e =? 0)%nat with false.
        -- simpl. now rewrite andb_false_r.
        -- symmetry. apply Nat.eqb_neq. intros H0.
           now apply map_size_empty_iff in H0.
Qed.

(** X16: [get_crypto] makes one [get] on the crypto sidecar key and
    changes nothing; it answers the body of the descriptor when
    [is_expired] accepts the descriptor and the body is there, and [None]
    otherwise. *)
Theorem get_crypto_run (path : string) :
  run bucket (get_crypto self now path) s
  = mk_outcome
      (inl (let file_key :=
              bucket_get bucket s (crypto_path (_normalize_path self path)) in
            if is_expired self now file_key then None else file_key ≫= Body))
      s [CallGet (crypto_path (_normalize_path self path))].
Proof.
  unfold get_crypto, storage_get. simpl (_ ≫= _).
  rewrite (run_get_if _ (unusable self now) None (fun fk => fk ≫= Body)).
  now rewrite unusable_is_expired.
Qed.

(** What a program that awaits one [get] and goes on does. *)
Lemma run_storage_get_bind {A : Type} (key : string) (f : option Response -> aio A) :
  run bucket (file_key ← storage_get key; f file_key) s
  = run_from bucket (f (bucket_get bucket s key)) s [CallGet key].
Proof. reflexivity. Qed.


(** X18: on a context without request [last_updated] raises
    [AttributeError] before anything is awaited; otherwise it makes one
    [get] on the key derived from the URL of the request, changes nothing,
    and answers the time stamp of the descriptor when [is_expired] accepts
    the descriptor, and [None] otherwise. *)
Theorem last_updated_run :
  match request (context self) with
  | None => last_updated self now = inl (AttributeError "request")
  | Some r =>
      exists p,
        last_updated self now = inr p
        /\ run bucket p s
           = mk_outcome
               (inl (let file := bucket_get bucket s (_normalize_path self (url r)) in
                     if is_expired self now file then None
                     else file ≫= LastModified))
               s [CallGet (_normalize_path self (url r))]
  end.
Proof.
  unfold last_updated.
  destruct (request (context self)) as [r|]; [|reflexivity].
  eexists. split; [reflexivity|].
  unfold storage_get. simpl (_ ≫= _).
  rewrite (run_get_if _ (unusable self now) None (fun fk => fk ≫= LastModified)).
  now rewrite unusable_is_expired.
Qed.

End ReadPaths.

(** ** The write paths *)

Section WritePaths.

Context {S : Type}.
Variable bucket : Bucket S.
Variable detector_data : Type.
Variable loads : string -> detector_data.
Variable dumps : detector_data -> string.
Variable self : AwsStorage.
Variable now : DateTime.datetime.
Variable s : S.

(** X19: [set] makes one [put] at the path it is given, as it is given,
    with the flags of the configuration, and its answer is the bucket's.
    The headers of the response go along as metadata only when the prefix
    is the very object of the literal [TC_AWS_RESULT_STORAGE] and
    [TC_AWS_STORE_METADATA] is on; for any other prefix object, one with
    the same text included, and with [TC_AWS_STORE_METADATA] off, the
    metadata are empty. *)
Theorem set_metadata_gating (bytes abspath : string) :
  let rrs := TC_AWS_STORAGE_RRS (config (context self)) in
  let sse := TC_AWS_STORAGE_SSE (config (context self)) in
  ((exists text, config_prefix self = OtherStr text)
   \/ TC_AWS_STORE_METADATA (config (context self)) = false ->
   run bucket (set_ self bytes abspath) s
   = let attrs := mk_put_attrs ∅ rrs sse in
     mk_outcome (inl (fst (bucket_put bucket s abspath bytes attrs)))
                (snd (bucket_put bucket s abspath bytes attrs))
                [CallPut abspath bytes attrs])
  /\ (config_prefix self = ResultStorageLiteral ->
      TC_AWS_STORE_METADATA (config (context self)) = true ->
      run bucket (set_ self bytes abspath) s
      = let attrs := mk_put_attrs (headers (context self)) rrs sse in
        mk_outcome (inl (fst (bucket_put bucket s abspath bytes attrs)))
                   (snd (bucket_put bucket s abspath bytes attrs))
                   [CallPut abspath bytes attrs]).
Proof.
  cbv zeta. unfold set_, storage_put, run. simpl. split.
  - intros H.
    replace (is_result_storage_literal (config_prefix self)
             && TC_AWS_STORE_METADATA (config (context self))) with false.
    + now destruct (bucket_put bucket s abspath bytes _).
    + symmetry. apply andb_false_iff.
      destruct H as [(text & ->) | H]; [now left | now right].
  - intros H1 H2. rewrite H1, H2. simpl.
    now destruct (bucket_put bucket s abspath bytes _).
Qed.

(** The state the bucket is left in by a [put]. *)
Lemma run_set_final (bytes abspath : string) :
  exists attrs,
    final (run bucket (set_ self bytes abspath) s)
    = snd (bucket_put bucket s abspath bytes attrs).
Proof.
  unfold set_, storage_put, run. simpl.
  match goal with
  | |- context [bucket_put bucket s abspath bytes ?a] => exists a
  end.
  now destruct (bucket_put bucket s abspath bytes _).
Qed.

(** X20: when the bucket answers a [get] with the data of the last [put]
    at that key, as the [str] that was put, in a descriptor [is_expired]
    accepts, [get_crypto] after [put_crypto] for the same path answers the
    security key of the server. *)
Theorem get_crypto_after_put_crypto (path key : string) :
  STORES_CRYPTO_KEY_FOR_EACH_IMAGE (config (context self)) = true ->
  security_key (server (context self)) = Some key ->
  PyStr.truthy key = true ->
  (forall s0 k0 data attrs,
      exists r, bucket_get bucket (snd (bucket_put bucket s0 k0 data attrs)) k0 = Some r
                /\ Body r = Some (BodyText data)
                /\ is_expired self now (Some r) = false) ->
  result (run bucket (get_crypto self now path)
              (final (run bucket (put_crypto self path) s)))
  = inl (Some (BodyText key)).
Proof.
  intros Hs Hk Ht Hlaw.
  assert (Hf : exists attrs,
             final (run bucket (put_crypto self path) s)
             = snd (bucket_put bucket s (crypto_path (_normalize_path self path))
                               key attrs)).
  { unfold put_crypto, set_, storage_put, run. rewrite Hs, Hk, Ht. simpl.
    match goal with
    | |- context [bucket_put bucket s ?k key ?a] => exists a
    end.
    now destruct (bucket_put bucket s _ key _). }
  destruct Hf as (attrs & ->).
  destruct (Hlaw s (crypto_path (_normalize_path self path)) key attrs)
    as (r & Hr & Hb & He).
  unfold get_crypto, storage_get. simpl (_ ≫= _).
  rewrite (run_get_if _ _ _ (unusable self now) None (fun fk => fk ≫= Body)).
  simpl. rewrite Hr, unusable_is_expired, He. simpl. now rewrite Hb.
Qed.

(** X21: when the bucket answers a [get] with a stream over the data of
    the last [put] at that key, in a descriptor [is_expired] accepts, and
    [loads] undoes [dumps], [get_detector_data] after [put_detector_data]
    for the same path reads the stream and answers the data that were
    put. *)
Theorem get_detector_data_after_put_detector_data (path : string) (data : detector_data) :
  (forall d, loads (dumps d) = d) ->
  (forall s0 k0 bytes attrs,
      exists r, bucket_get bucket (snd (bucket_put bucket s0 k0 bytes attrs)) k0 = Some r
                /\ Body r = Some (BodyStream bytes)
                /\ is_expired self now (Some r) = false) ->
  result (run bucket (get_detector_data detector_data loads self now path)
              (final (run bucket (put_detector_data detector_data dumps self path data) s)))
  = inl (Some data).
Proof.
  intros Hjson Hlaw.
  unfold put_detector_data.
  destruct (run_set_final (dumps data) (detectors_path (_normalize_path self path)))
    as (attrs & ->).
  destruct (Hlaw s (detectors_path (_normalize_path self path)) (dumps data) attrs)
    as (r & Hr & Hb & He).
  unfold get_detector_data.
  rewrite run_storage_get_bind, Hr, unusable_is_expired, He.
  simpl. rewrite Hb. simpl. now rewrite Hjson.
Qed.

End WritePaths.

Lemma mem_bucket_get_after_put (self : AwsStorage) :
  storage_expiration_seconds self = None ->
  forall (s0 : gmap string Response) k0 data attrs,
    exists r, bucket_get (mem_bucket 0)
                (snd (bucket_put (mem_bucket 0) s0 k0 data attrs)) k0 = Some r
              /\ Body r = Some (BodyText data)
              /\ is_expired self 0 (Some r) = false.
Proof.
  intros Hs s0 k0 data attrs. eexists. split; [|split].
  - simpl. apply lookup_insert_eq.
  - reflexivity.
  - unfold is_expired. simpl. now rewrite Hs.
Qed.

Lemma stream_bucket_get_after_put (self : AwsStorage) :
  storage_expiration_seconds self = None ->
  forall (s0 : gmap string Response) k0 data attrs,
    exists r, bucket_get (stream_bucket 0)
                (snd (bucket_put (stream_bucket 0) s0 k0 data attrs)) k0 = Some r
              /\ Body r = Some (BodyStream data)
              /\ is_expired self 0 (Some r) = false.
Proof.
  intros Hs s0 k0 data attrs. eexists. split; [|split].
  - simpl. apply lookup_insert_eq.
  - reflexivity.
  - unfold is_expired. simpl. now rewrite Hs.
Qed.

Lemma set_metadata_gating_witness :
  run (mem_bucket 0)
      (set_ (metadata_storage (OtherStr "TC_AWS_RESULT_STORAGE")) "data" "a/b.jpg") ∅
  = mk_outcome (inl "a/b.jpg")
               {["a/b.jpg" := mk_Response (Some (BodyText "data")) (Some 0) None 0]}
               [CallPut "a/b.jpg" "data" (mk_put_attrs ∅ false false)]
  /\ run (mem_bucket 0)
         (set_ (metadata_storage ResultStorageLiteral) "data" "a/b.jpg") ∅
     = mk_outcome (inl "a/b.jpg")
                  {["a/b.jpg" := mk_Response (Some (BodyText "data")) (Some 0) None 0]}
                  [CallPut "a/b.jpg" "data"
                     (mk_put_attrs {["Content-Type" := "image/jpeg"]} false false)].
Proof.
  split.
  - apply (proj1 (set_metadata_gating (mem_bucket 0)
                    (metadata_storage (OtherStr "TC_AWS_RESULT_STORAGE")) ∅
                    "data" "a/b.jpg")).
    left. now exists "TC_AWS_RESULT_STORAGE".
  - apply (proj2 (set_metadata_gating (mem_bucket 0)
                    (metadata_storage ResultStorageLiteral) ∅
                    "data" "a/b.jpg")); reflexivity.
Defined.

Lemma get_crypto_after_put_crypto_witness :
  result (run (mem_bucket 0) (get_crypto (crypto_storage (Some "secret")) 0 "/a/b.jpg")
              (final (run (mem_bucket 0)
                          (put_crypto (crypto_storage (Some "secret")) "/a/b.jpg") ∅)))
  = inl (Some (BodyText "secret")).
Proof.
  apply get_crypto_after_put_crypto; try reflexivity.
  now apply mem_bucket_get_after_put.
Defined.

Lemma get_detector_data_after_put_detector_data_witness :
  result (run (stream_bucket 0)
              (get_detector_data string (fun b => b)
                 (storage_with None false false "image.jpg" None) 0 "/a/b.jpg")
              (final (run (stream_bucket 0)
                          (put_detector_data string (fun d => d)
                             (storage_with None false false "image.jpg" None)
                             "/a/b.jpg" "[]") ∅)))
  = inl (Some "[]").
Proof.
  apply get_detector_data_after_put_detector_data; try reflexivity.
  now apply stream_bucket_get_after_put.
Defined.

(** On the bucket that hands out the [str] that was put, the same round
    trip ends in [AttributeError]. *)
Example get_detector_data_on_str_body :
  result (run (mem_bucket 0)
              (get_detector_data string (fun b => b)
                 (storage_with None false false "image.jpg" None) 0 "/a/b.jpg")
              (final (run (mem_bucket 0)
                          (put_detector_data string (fun d => d)
                             (storage_with None false false "image.jpg" None)
                             "/a/b.jpg" "[]") ∅)))
  = inr (AttributeErr (AttributeError "read")).
Proof. vm_compute. reflexivity. Qed.

Lemma exists_ignores_expiry_witness :
  result (run (mem_bucket 0)
              (exists_ (storage_with None false false "image.jpg" (Some 60)) "x.jpg")
              {["x.jpg" := object_at 0]})
  = inl true.
Proof.
  apply (exists_ignores_expiry (mem_bucket 0) _ "x.jpg" _ (object_at 0) 0);
    reflexivity.
Defined.

Lemma put_crypto_stores_witness :
  exists attrs,
    result (run (mem_bucket 0) (put_crypto (crypto_storage (Some "secret")) "/a/b.jpg") ∅)
    = inl (Some (crypto_path (_normalize_path (crypto_storage (Some "secret")) "/a/b.jpg")))
    /\ calls (run (mem_bucket 0) (put_crypto (crypto_storage (Some "secret")) "/a/b.jpg") ∅)
       = [CallPut (crypto_path (_normalize_path (crypto_storage (Some "secret")) "/a/b.jpg"))
                  "secret" attrs].
Proof.
  apply put_crypto_stores; reflexivity.
Defined.

(** ** Writing, removing and asking *)

Section WriteThenAsk.

Context {S : Type}.
Variable bucket : Bucket S.
Variable self : AwsStorage.
Variable s : S.

(** X22: when the bucket answers a [get] after a [put] at the same key
    with a descriptor that is not empty and has no error entry, [exists]
    answers true after [set] at the derived key, whatever the age of the
    object. *)
Theorem exists_after_set (path bytes : string) :
  (forall s0 k0 data attrs,
      exists r, bucket_get bucket (snd (bucket_put bucket s0 k0 data attrs)) k0 = Some r
                /\ response_len r <> 0%nat /\ Error r = None) ->
  result (run bucket (exists_ self path)
              (final (run bucket (set_ self bytes (_normalize_path self path)) s)))
  = inl true.
Proof.
  intros Hlaw.
  destruct (run_set_final bucket self s bytes (_normalize_path self path))
    as (attrs & ->).
  destruct (Hlaw s (_normalize_path self path) bytes attrs) as (r & Hr & Hn & He).
  rewrite exists_run, Hr. simpl.
  unfold _get_error. rewrite He. simpl.
  apply Nat.eqb_neq in Hn. now rewrite Hn.
Qed.

(** X23: [remove] makes one [delete] at the path it is given, as it is
    given; when the bucket answers nothing for a deleted key, [exists]
    answers false after [remove] of the derived key. *)
Theorem exists_after_remove (path : string) :
  (forall s0 k0, bucket_get bucket (bucket_delete bucket s0 k0) k0 = None) ->
  calls (run bucket (remove (_normalize_path self path)) s)
  = [CallDelete (_normalize_path self path)]
  /\ result (run bucket (exists_ self path)
                 (final (run bucket (remove (_normalize_path self path)) s)))
     = inl false.
Proof.
  intros Hlaw. split; [reflexivity|].
  rewrite exists_run. unfold remove, storage_delete, run. simpl.
  now rewrite Hlaw.
Qed.

End WriteThenAsk.

Lemma exists_after_set_witness :
  result (run (mem_bucket 0)
              (exists_ (storage_with (Some "prod") false false "image.jpg" (Some 60)) "/a/b.jpg")
              (final (run (mem_bucket 0)
                          (set_ (storage_with (Some "prod") false false "image.jpg" (Some 60))
                                "data"
                                (_normalize_path
                                   (storage_with (Some "prod") false false "image.jpg" (Some 60))
                                   "/a/b.jpg")) ∅)))
  = inl true.
Proof.
  apply exists_after_set.
  intros s0 k0 data attrs. eexists. split; [|split].
  - simpl. apply lookup_insert_eq.
  - discriminate.
  - reflexivity.
Defined.

Lemma exists_after_remove_witness :
  calls (run (mem_bucket 0)
             (remove (_normalize_path (storage_with None false false "image.jpg" None) "/a.jpg"))
             {["a.jpg" := object_at 0]})
  = [CallDelete (_normalize_path (storage_with None false false "image.jpg" None) "/a.jpg")]
  /\ result (run (mem_bucket 0)
                 (exists_ (storage_with None false false "image.jpg" None) "/a.jpg")
                 (final (run (mem_bucket 0)
                             (remove (_normalize_path
                                        (storage_with None false false "image.jpg" None) "/a.jpg"))
                             {["a.jpg" := object_at 0]})))
     = inl false.
Proof.
  apply exists_after_remove.
  intros s0 k0. simpl. apply lookup_delete_eq.
Defined.

(** ** More on the sidecar keys *)

Section SidecarKeys.
Import PyStr PyStrFacts PosixPath SplitextFacts.

Lemma app_cancel (a b c : string) : a +:+ b = a +:+ c -> b = c.
Proof.
  induction a as [|x a IH]; simpl; [auto|].
  intros H. injection H as H. auto.
Qed.

(** X24: the crypto sidecar key is the primary key itself exactly when the
    extension of the primary key is [.txt]; the detector sidecar key is
    never the primary key, and the two sidecar keys of a key differ. *)
Theorem sidecar_collisions (key : string) :
  (crypto_path key = key <-> snd (splitext key) = ".txt")
  /\ detectors_path key <> key
  /\ crypto_path key <> detectors_path key.
Proof.
  unfold crypto_path, detectors_path.
  destruct (splitext_parts key) as [H1 H2].
  destruct (splitext key) as [base ext]. simpl in *.
  split; [|split].
  - rewrite <- H1. split.
    + intros H. apply app_cancel in H. now symmetry.
    + now intros ->.
  - rewrite <- H1. intros H. apply app_cancel in H.
    destruct H2 as [-> | (e & -> & He & _)]; [discriminate|].
    injection H as <-. discriminate.
  - intros H. apply app_cancel in H. discriminate.
Qed.

(** X25: a file name that starts with dots and has no dot after them has
    no extension: its sidecar keys are the whole key followed by the
    sidecar suffix. *)
Theorem sidecar_of_dot_file (dir dots e : string) :
  dir = "" \/ endswith dir "/" = true ->
  all_are "." dots = true ->
  contains "." e = false ->
  contains "/" e = false ->
  splitext (dir +:+ dots +:+ String "." e) = (dir +:+ dots +:+ String "." e, "")
  /\ crypto_path (dir +:+ dots +:+ String "." e)
     = (dir +:+ dots +:+ String "." e) +:+ ".txt"
  /\ detectors_path (dir +:+ dots +:+ String "." e)
     = (dir +:+ dots +:+ String "." e) +:+ ".detectors.txt".
Proof.
  intros Hdir Hdots He Hes.
  assert (Hnosep : contains "/" dots = false).
  { clear -Hdots. induction dots as [|x d IH]; [reflexivity|].
    simpl in *. apply andb_prop in Hdots as [Hx Hd].
    apply Ascii.eqb_eq in Hx. subst x. simpl. auto. }
  assert (Hsplit : splitext (dir +:+ dots +:+ String "." e)
                   = (dir +:+ dots +:+ String "." e, "")).
  { assert (Hsep : rfind (dir +:+ dots +:+ String "." e) "/" + 1
                   = Z.of_nat (String.length dir)).
    { rewrite <- (rfind_dir dir Hdir). unfold rfind. rewrite rfind_aux_app.
      f_equal.
      destruct (rfind_aux_spec "/" (dots +:+ String "." e)
                  (0 + Z.of_nat (String.length dir)) (rfind_aux "/" dir 0 (-1)))
        as [[_ Hr] | (a & b & Hs & _ & _)]; [exact Hr|].
      assert (Hc : contains "/" (dots +:+ String "." e) = false).
      { rewrite contains_app, Hnosep. simpl. exact Hes. }
      rewrite Hs, contains_app in Hc. simpl in Hc.
      rewrite orb_true_r in Hc. discriminate. }
    assert (Hdot : rfind (dir +:+ dots +:+ String "." e) "."
                   = Z.of_nat (String.length (dir +:+ dots))).
    { rewrite <- app_assoc. unfold rfind. rewrite rfind_aux_app. simpl.
      destruct (rfind_aux_spec "." e (0 + Z.of_nat (String.length (dir +:+ dots)) + 1)
                  (0 + Z.of_nat (String.length (dir +:+ dots))))
        as [[_ Hr] | (a & b & Hs & _ & _)]; [rewrite Hr; lia|].
      rewrite Hs, contains_app in He. simpl in He.
      rewrite orb_true_r in He. discriminate. }
    unfold splitext. rewrite Hsep, Hdot.
    replace (Z.to_nat (Z.of_nat (String.length (dir +:+ dots))
                       - Z.of_nat (String.length dir)))
      with (String.length dots) by (rewrite length_app; lia).
    rewrite has_name_before_dot_spec, Hdots. simpl (negb true).
    now rewrite andb_false_r. }
  unfold crypto_path, detectors_path. rewrite Hsplit. auto.
Qed.

End SidecarKeys.

Lemma sidecar_of_dot_file_witness :
  PosixPath.splitext ("a/" +:+ "" +:+ String "." "htaccess")
  = ("a/" +:+ "" +:+ String "." "htaccess", "")
  /\ crypto_path ("a/" +:+ "" +:+ String "." "htaccess")
     = ("a/" +:+ "" +:+ String "." "htaccess") +:+ ".txt"
  /\ detectors_path ("a/" +:+ "" +:+ String "." "htaccess")
     = ("a/" +:+ "" +:+ String "." "htaccess") +:+ ".detectors.txt".
Proof.
  apply sidecar_of_dot_file; try reflexivity.
  right. reflexivity.
Defined.
